(** * appleseed: the path-tracing kernel

    A shallow embedding of
    - [renderer/kernel/lighting/pathtracer.h] (the generic random walk),
    - [renderer/kernel/lighting/imagebasedlighting.cpp] (image-based lighting
      by BSDF sampling and by environment sampling),
    - the [PathVisitor] of
      [renderer/kernel/rendering/lighttracing/lighttracingsamplegenerator.cpp],
    together with the properties the specification states about them.

    Numbers are IEEE 754 values: [float] is binary32 and [double] is binary64,
    both carried by [spec_float] and computed with the operations of
    [SpecFloat] (round to nearest, ties to even).  The collaborators the
    kernel only calls (intersector, BSDF, surface shader, sampling context,
    camera, visitor) are the fields of a class of each component: every
    theorem holds whatever they compute, and the concrete scenes at the end
    of the definitions instantiate them.  Helpers of [foundation] whose
    headers are not among the sources are modelled where they are used and
    said so.  The [assert]s of the sources are not executed (release
    build); the properties that lean on one say so. *)

From Stdlib Require Import ZArith NArith List Bool Lia.
From Stdlib Require Import Floats.SpecFloat.
Import ListNotations.

Set Implicit Arguments.
Local Open Scope Z_scope.

(* ================================================================== *)
(** * IEEE 754 arithmetic *)
(* ================================================================== *)

Module IEEE.

(** [float] and [double] of the C++ sources.  A value is kept in the
    canonical form of its own format, so a conversion renormalises the
    mantissa. *)
Definition float := spec_float.
Definition double := spec_float.

Definition is_nan (x : spec_float) : bool :=
  match x with S754_nan => true | _ => false end.

(** Neither an infinity nor a NaN. *)
Definition is_finite (x : spec_float) : bool :=
  match x with S754_zero _ | S754_finite _ _ _ => true | _ => false end.

Module F32.
Definition prec : Z := 24.
Definition emax : Z := 128.
Definition mul : float -> float -> float := SFmul prec emax.
Definition div : float -> float -> float := SFdiv prec emax.
Definition add : float -> float -> float := SFadd prec emax.
Definition ltb : float -> float -> bool := SFltb.
Definition leb : float -> float -> bool := SFleb.
Definition of_Z (z : Z) : float := binary_normalize prec emax z 0 false.
(** Conversion of a [size_t]. *)
Definition of_N (n : N) : float := of_Z (Z.of_N n).
Definition zero : float := S754_zero false.
Definition one : float := of_Z 1.
End F32.

Module F64.
Definition prec : Z := 53.
Definition emax : Z := 1024.
Definition mul : double -> double -> double := SFmul prec emax.
Definition div : double -> double -> double := SFdiv prec emax.
Definition add : double -> double -> double := SFadd prec emax.
Definition sub : double -> double -> double := SFsub prec emax.
Definition sqrt : double -> double := SFsqrt prec emax.
Definition abs : double -> double := SFabs.
Definition opp : double -> double := SFopp.
Definition eqb : double -> double -> bool := SFeqb.
(** C++ [a != b]: true as soon as one side is a NaN. *)
Definition neqb (a b : double) : bool := negb (SFeqb a b).
Definition ltb : double -> double -> bool := SFltb.
Definition leb : double -> double -> bool := SFleb.
(** C++ [a >= b]. *)
Definition geb (a b : double) : bool := SFleb b a.
(** [std::min(a, b)]: [(b < a) ? b : a]. *)
Definition min (a b : double) : double := if ltb b a then b else a.
Definition of_Z (z : Z) : double := binary_normalize prec emax z 0 false.
(** Conversion of a [size_t]. *)
Definition of_N (n : N) : double := of_Z (Z.of_N n).
Definition zero : double := S754_zero false.
Definition one : double := of_Z 1.
(** [foundation::square]. *)
Definition square (x : double) : double := mul x x.
End F64.

(** [static_cast<float>(d)]: rounds to binary32. *)
Definition to_float (d : double) : float :=
  match d with
  | S754_finite s m e => binary_round F32.prec F32.emax s m e
  | _ => d
  end.

(** [static_cast<double>(f)]: exact, renormalised to binary64. *)
Definition to_double (f : float) : double :=
  match f with
  | S754_finite s m e => binary_round F64.prec F64.emax s m e
  | _ => f
  end.

(** IEEE [x >= 0]: false on a NaN, true on both zeros and on [+Inf]. *)
Definition nonneg (x : spec_float) : bool := SFleb (S754_zero false) x.

(** Finite and [>= 0]. *)
Definition finite_nonneg (x : spec_float) : bool := is_finite x && nonneg x.

(** Finite and [> 0]. *)
Definition finite_pos (x : spec_float) : bool :=
  is_finite x && SFltb (S754_zero false) x.

(** The sign carried by a value that is not a NaN. *)
Definition has_sign (s : bool) (x : spec_float) : Prop :=
  match x with
  | S754_zero s' | S754_infinity s' | S754_finite s' _ _ => s' = s
  | S754_nan => False
  end.

End IEEE.
Import IEEE.

(** [size_t]: 64 bits, [++n] wraps around. *)
Definition size_t := N.
Definition size_t_modulus : N := 2 ^ 64.
Definition size_t_incr (n : size_t) : size_t := ((n + 1) mod size_t_modulus)%N.

(* ================================================================== *)
(** * Spectra, vectors, scattering modes *)
(* ================================================================== *)

(** Modelled from the spec: [Spectrum] ([foundation/image/spectrum.h] is not
    among the sources), a fixed number of [float] samples that the
    operators update component by component. *)
Definition Spectrum := list float.

Fixpoint map2 (f : float -> float -> float) (a b : Spectrum) : Spectrum :=
  match a, b with
  | x :: a', y :: b' => f x y :: map2 f a' b'
  | _, _ => []
  end.

Module SpectrumOps.
(** [Spectrum s(c)]. *)
Definition make (samples : nat) (c : float) : Spectrum := repeat c samples.
(** [s.set(c)]. *)
Definition set (s : Spectrum) (c : float) : Spectrum := map (fun _ => c) s.
(** [a *= b]. *)
Definition mul (a b : Spectrum) : Spectrum := map2 F32.mul a b.
(** [a += b]. *)
Definition add (a b : Spectrum) : Spectrum := map2 F32.add a b.
(** [a *= k]. *)
Definition scale (a : Spectrum) (k : float) : Spectrum :=
  map (fun x => F32.mul x k) a.
(** [a /= k]. *)
Definition div (a : Spectrum) (k : float) : Spectrum :=
  map (fun x => F32.div x k) a.
End SpectrumOps.

(** Modelled from the spec: [foundation::max_value] (its header is not among
    the sources), the "max-component" of a spectrum: a running maximum
    started at the first sample. *)
Definition max_value (s : Spectrum) : float :=
  match s with
  | [] => F32.zero
  | x :: r => fold_left (fun v y => if F32.ltb v y then y else v) r x
  end.

(** Modelled from the spec: [foundation::pass_rr] ([foundation/math/rr.h] is
    not among the sources): with [s] uniform in [0,1) the walk continues
    with probability [probability], that is, when [s < probability]. *)
Definition pass_rr (probability s : double) : bool := F64.ltb s probability.

Record Vector2d := mkVector2d { v2_x : double; v2_y : double }.
Record Vector3d := mkVector3d { v3_x : double; v3_y : double; v3_z : double }.

(** [BSDF::Mode] is an enumeration used as a bit set
    ([bsdf_mode & ScatteringModesMask]). *)
Definition Mode := Z.

Module BSDFMode.
(** Modelled from the spec: the enumeration's declaration ([bsdf.h]) is not
    among the sources; diffuse, glossy and specular are three distinct
    bits. *)
Definition Diffuse : Mode := 1.
Definition Glossy : Mode := 2.
Definition Specular : Mode := 4.
End BSDFMode.

Record ShadingRay := mkShadingRay {
  m_org : Vector3d;
  m_dir : Vector3d;
  m_time : double;
  m_flags : Z
}.

(** [~0], the ray flags of every ray the kernel builds. *)
Definition all_ray_flags : Z := Z.lnot 0.

(* ================================================================== *)
(** * The generic path tracer ([pathtracer.h]) *)
(* ================================================================== *)

Module PathTracer.

(** The calls of the walk that the properties speak of. *)
Inductive Event :=
| CallVisitEnvironment
| CallVisitVertex
| CallIntersect (ray : ShadingRay)
| WarnHardLimit (path_length : size_t).

Definition is_visit_vertex (e : Event) : bool :=
  match e with CallVisitVertex => true | _ => false end.

Definition is_visit_environment (e : Event) : bool :=
  match e with CallVisitEnvironment => true | _ => false end.

Definition HardPathLengthLimit : size_t := 10000%N.

(** The opaque objects the walk handles. *)
Class Entities := {
  SamplingContext : Type;
  SurfaceShader : Type;
  BSDF : Type;
  BSDFData : Type;
  Basis3d : Type;
  Visitor : Type
}.

Section Data.
Context {ent : Entities}.

Record Material := mkMaterial {
  get_surface_shader : option SurfaceShader;
  get_bsdf : option BSDF
}.

Record ShadingPoint := mkShadingPoint {
  hit : bool;
  get_ray : ShadingRay;
  get_point : Vector3d;
  get_material : option Material;
  get_uv : Vector2d;
  get_geometric_normal : Vector3d;
  get_shading_basis : Basis3d
}.

(** One BSDF sample: [incoming], [bsdf_value], [bsdf_prob], [bsdf_mode]. *)
Record BSDFSample := mkBSDFSample {
  smp_incoming : Vector3d;
  smp_value : Spectrum;
  smp_prob : double;
  smp_mode : Mode
}.

End Data.

(** The interfaces the walk consumes.  The texture cache only memoises
    texture lookups and is left out. *)
Class Collaborators {ent : Entities} := {
  (** [SamplingContext::split_in_place], [SamplingContext::next_double2]. *)
  split_in_place : N -> N -> SamplingContext -> SamplingContext;
  next_double2 : SamplingContext -> double * SamplingContext;
  (** [Intersector::trace(ray, shading_point, parent)]. *)
  intersector_trace : ShadingRay -> option ShadingPoint -> ShadingPoint;
  (** [SurfaceShader::evaluate_alpha_mask]; [Alpha] has one channel. *)
  evaluate_alpha_mask :
    SurfaceShader -> SamplingContext -> ShadingPoint -> float * SamplingContext;
  (** [BSDF::evaluate_inputs] followed by [InputEvaluator::data]. *)
  evaluate_inputs : BSDF -> Vector2d -> BSDFData;
  (** [BSDF::sample(sampling_context, data, adjoint, cosine_mult,
      geometric_normal, shading_basis, outgoing, ...)]. *)
  bsdf_sample :
    BSDF -> SamplingContext -> BSDFData -> bool -> bool ->
    Vector3d -> Basis3d -> Vector3d -> BSDFSample * SamplingContext;
  (** [BSDF::DiracDelta]. *)
  DiracDelta : double;
  (** [normalize(-v)] of [foundation/math/vector.h]. *)
  normalize_neg : Vector3d -> Vector3d;
  (** The two callbacks of the [PathVisitor] template parameter. *)
  visit_environment :
    Visitor -> ShadingPoint -> Vector3d -> Mode -> Spectrum -> Visitor;
  visit_vertex :
    Visitor -> SamplingContext -> ShadingPoint -> Vector3d -> BSDF -> BSDFData ->
    Mode -> double -> Spectrum -> bool * Visitor * SamplingContext;
  (** Number of samples of a [Spectrum]. *)
  spectrum_samples : nat
}.

(** Template parameters and constructor arguments of [PathTracer]. *)
Class Parameters := {
  ScatteringModesMask : Z;
  Adjoint : bool;
  m_rr_min_path_length : size_t;
  m_max_path_length : size_t
}.

Section Walk.
Context {ent : Entities} {col : Collaborators} {par : Parameters}.

(** The local variables of [trace] that live across iterations, the
    visitor the tracer holds by reference, and the calls made so far
    (most recent first).  [shading_point_ptr] is the point designated by
    the pointer: the two slots of [shading_points] are written
    alternately, so the parent of a traced ray is never overwritten. *)
Record PathState := mkPathState {
  shading_point_ptr : ShadingPoint;
  throughput : Spectrum;
  path_length : size_t;
  bsdf_mode : Mode;
  bsdf_prob : double;
  sampling_context : SamplingContext;
  m_path_visitor : Visitor;
  events : list Event
}.

Definition set_point (st : PathState) sp :=
  mkPathState sp (throughput st) (path_length st) (bsdf_mode st)
    (bsdf_prob st) (sampling_context st) (m_path_visitor st) (events st).
Definition set_throughput (st : PathState) t :=
  mkPathState (shading_point_ptr st) t (path_length st) (bsdf_mode st)
    (bsdf_prob st) (sampling_context st) (m_path_visitor st) (events st).
Definition set_path_length (st : PathState) n :=
  mkPathState (shading_point_ptr st) (throughput st) n (bsdf_mode st)
    (bsdf_prob st) (sampling_context st) (m_path_visitor st) (events st).
Definition set_sample_outputs (st : PathState) mode prob :=
  mkPathState (shading_point_ptr st) (throughput st) (path_length st) mode
    prob (sampling_context st) (m_path_visitor st) (events st).
Definition set_sampling_context (st : PathState) sc :=
  mkPathState (shading_point_ptr st) (throughput st) (path_length st)
    (bsdf_mode st) (bsdf_prob st) sc (m_path_visitor st) (events st).
Definition set_visitor (st : PathState) v :=
  mkPathState (shading_point_ptr st) (throughput st) (path_length st)
    (bsdf_mode st) (bsdf_prob st) (sampling_context st) v (events st).
Definition log (st : PathState) e :=
  mkPathState (shading_point_ptr st) (throughput st) (path_length st)
    (bsdf_mode st) (bsdf_prob st) (sampling_context st) (m_path_visitor st)
    (e :: events st).

(** How one iteration of [while (true)] ends: [break], the [continue] of
    the alpha-mask branch, or the end of the loop body. *)
Inductive Outcome :=
| Break (st : PathState)
| Retry (st : PathState)
| Next (st : PathState).

Definition outcome_state (o : Outcome) : PathState :=
  match o with Break st | Retry st | Next st => st end.

(** Lines 278-310: the bounce limits, then the scattered ray. *)
Definition next_bounce (st : PathState) (incoming : Vector3d) : Outcome :=
  let sp := shading_point_ptr st in
  if ((0 <? m_max_path_length) && (m_max_path_length <=? path_length st))%N
  then Break st
  else if (HardPathLengthLimit <=? path_length st)%N
  then Break (log st (WarnHardLimit (path_length st)))
  else
    let st := set_path_length st (size_t_incr (path_length st)) in
    let scattered_ray :=
      mkShadingRay (get_point sp) incoming (m_time (get_ray sp)) all_ray_flags in
    Next (set_point (log st (CallIntersect scattered_ray))
            (intersector_trace scattered_ray (Some sp))).

(** Lines 253-254: the division by the sampled probability. *)
Definition divide_by_prob (bsdf_value : Spectrum) (prob : double) : Spectrum :=
  if F64.neqb prob DiracDelta
  then SpectrumOps.div bsdf_value (to_float prob)
  else bsdf_value.

(** Lines 249-310: what follows [bsdf->sample]. *)
Definition scatter (st : PathState) (smp : BSDFSample) : Outcome :=
  let st := set_sample_outputs st (smp_mode smp) (smp_prob smp) in
  if Z.land (smp_mode smp) ScatteringModesMask =? 0 then Break st
  else
    let bsdf_value := divide_by_prob (smp_value smp) (smp_prob smp) in
    let st := set_throughput st (SpectrumOps.mul (throughput st) bsdf_value) in
    if ((0 <? m_rr_min_path_length)
        && (m_rr_min_path_length <=? path_length st))%N
    then
      let '(s, sc) :=
        next_double2 (split_in_place 1 1 (sampling_context st)) in
      let st := set_sampling_context st sc in
      let scattering_prob :=
        F64.min (to_double (max_value bsdf_value)) F64.one in
      if negb (pass_rr scattering_prob s) then Break st
      else
        next_bounce
          (set_throughput st
             (SpectrumOps.div (throughput st) (to_float scattering_prob)))
          (smp_incoming smp)
    else next_bounce st (smp_incoming smp).

(** Lines 206-247: BSDF lookup, the per-vertex callback, the sampling. *)
Definition shade (st : PathState) (material : Material) : Outcome :=
  let sp := shading_point_ptr st in
  match get_bsdf material with
  | None => Break st
  | Some bsdf =>
    let bsdf_data := evaluate_inputs bsdf (get_uv sp) in
    let outgoing := normalize_neg (m_dir (get_ray sp)) in
    let '(proceed, visitor, sc) :=
      visit_vertex (m_path_visitor st) (sampling_context st) sp outgoing
        bsdf bsdf_data (bsdf_mode st) (bsdf_prob st) (throughput st) in
    let st :=
      log (set_sampling_context (set_visitor st visitor) sc) CallVisitVertex in
    if negb proceed then Break st
    else
      let '(smp, sc) :=
        bsdf_sample bsdf sc bsdf_data Adjoint true
          (get_geometric_normal sp) (get_shading_basis sp) outgoing in
      scatter (set_sampling_context st sc) smp
  end.

(** Lines 184-189: the ray that continues in the direction of the incoming
    ray, from the shading point. *)
Definition cutoff_ray (sp : ShadingPoint) : ShadingRay :=
  mkShadingRay (get_point sp) (m_dir (get_ray sp)) (m_time (get_ray sp))
    all_ray_flags.

(** Lines 142-204, then [shade]: one iteration of the loop. *)
Definition iteration (st : PathState) : Outcome :=
  let sp := shading_point_ptr st in
  let ray := get_ray sp in
  if negb (hit sp) then
    Break
      (log
         (set_visitor st
            (visit_environment (m_path_visitor st) sp
               (normalize_neg (m_dir ray)) (bsdf_mode st) (throughput st)))
         CallVisitEnvironment)
  else
    match get_material sp with
    | None => Break st
    | Some material =>
      match get_surface_shader material with
      | None => Break st
      | Some surface_shader =>
        let '(alpha_mask, sc) :=
          evaluate_alpha_mask surface_shader (sampling_context st) sp in
        let st := set_sampling_context st sc in
        if F64.ltb (to_double alpha_mask) F64.one then
          let '(s, sc) := next_double2 (split_in_place 1 1 sc) in
          let st := set_sampling_context st sc in
          if F64.geb s (to_double alpha_mask) then
            Retry (set_point (log st (CallIntersect (cutoff_ray sp)))
                     (intersector_trace (cutoff_ray sp) (Some sp)))
          else shade st material
        else shade st material
      end
    end.

(** [while (true)], with fuel: the state is returned in both cases. *)
Inductive Result :=
| Finished (st : PathState)
| OutOfFuel (st : PathState).

Definition result_state (r : Result) : PathState :=
  match r with Finished st | OutOfFuel st => st end.

Fixpoint trace_loop (fuel : nat) (st : PathState) : Result :=
  match fuel with
  | O => OutOfFuel st
  | S fuel' =>
    match iteration st with
    | Break st' => Finished st'
    | Retry st' | Next st' => trace_loop fuel' st'
    end
  end.

(** Lines 131-139: the state on entry of the loop. *)
Definition initial_state (sc : SamplingContext) (visitor : Visitor)
    (shading_point : ShadingPoint) : PathState :=
  mkPathState shading_point (SpectrumOps.make spectrum_samples F32.one) 1%N
    BSDFMode.Specular DiracDelta sc visitor [].

(** [trace(sampling_context, intersector, texture_cache, shading_point)];
    the value returned by the C++ function is [path_length] of the final
    state. *)
Definition trace (fuel : nat) (sc : SamplingContext) (visitor : Visitor)
    (shading_point : ShadingPoint) : Result :=
  trace_loop fuel (initial_state sc visitor shading_point).

(** [trace(sampling_context, intersector, texture_cache, ray, parent)]. *)
Definition trace_ray (fuel : nat) (sc : SamplingContext) (visitor : Visitor)
    (ray : ShadingRay) (parent_shading_point : option ShadingPoint) : Result :=
  trace fuel sc visitor (intersector_trace ray parent_shading_point).

(** Number of per-vertex callbacks made so far, and of environment
    callbacks. *)
Definition vertex_visits (st : PathState) : nat :=
  length (filter is_visit_vertex (events st)).
Definition environment_visits (st : PathState) : nat :=
  length (filter is_visit_environment (events st)).

(** The state in which the alpha-mask branch leaves the loop body: only the
    shading point, the sampling context and the list of calls differ. *)
Definition retried (st : PathState) (sc : SamplingContext) : PathState :=
  let sp := shading_point_ptr st in
  mkPathState (intersector_trace (cutoff_ray sp) (Some sp)) (throughput st)
    (path_length st) (bsdf_mode st) (bsdf_prob st) sc (m_path_visitor st)
    (CallIntersect (cutoff_ray sp) :: events st).

(** A hit point that the loop body can show to the visitor: it has a
    material, and the material a surface shader and a BSDF. *)
Definition shadeable (sp : ShadingPoint) : bool :=
  match get_material sp with
  | None => false
  | Some material =>
    match get_surface_shader material, get_bsdf material with
    | Some _, Some _ => true
    | _, _ => false
    end
  end.

End Walk.
End PathTracer.

(* ================================================================== *)
(** * Image-based lighting ([imagebasedlighting.cpp]) *)
(* ================================================================== *)

Module ImageBasedLighting.

(** The calls that cost a ray or an environment lookup, most recent first. *)
Inductive Event :=
| CallTracerTrace (incoming : Vector3d)
| CallEnvironmentEvaluate (incoming : Vector3d)
| CallBSDFEvaluate (incoming : Vector3d).

(** What [BSDF::sample] writes. *)
Record BSDFSample := mkBSDFSample {
  smp_incoming : Vector3d;
  smp_value : Spectrum;
  smp_prob : double;
  smp_mode : Mode
}.

(** The interfaces the estimator consumes.  [mis_power2]
    ([foundation/math/mis.h]) is not among the sources and is kept
    abstract here. *)
Class Collaborators := {
  SamplingContext : Type;
  BSDF : Type;
  BSDFData : Type;
  Basis3d : Type;
  EnvironmentEDF : Type;
  ParentShadingPoint : Type;
  split_in_place : N -> N -> SamplingContext -> SamplingContext;
  next_vector2 : SamplingContext -> Vector2d * SamplingContext;
  (** [BSDF::sample(sampling_context, data, adjoint, cosine_mult,
      geometric_normal, shading_basis, outgoing, ...)]. *)
  bsdf_sample :
    BSDF -> SamplingContext -> BSDFData -> bool -> bool ->
    Vector3d -> Basis3d -> Vector3d -> BSDFSample * SamplingContext;
  (** [BSDF::evaluate]: [None] when it returns [false]. *)
  bsdf_evaluate :
    BSDF -> BSDFData -> bool -> bool -> Vector3d -> Basis3d ->
    Vector3d -> Vector3d -> option (Spectrum * double);
  (** [Tracer::trace(sampling_context, point, direction, time, transmission,
      parent)]: whether the returned shading point is a hit, and the
      transmission. *)
  tracer_trace :
    SamplingContext -> Vector3d -> Vector3d -> double ->
    option ParentShadingPoint -> bool * double * SamplingContext;
  (** [EnvironmentEDF::evaluate] and [EnvironmentEDF::sample]. *)
  edf_evaluate : EnvironmentEDF -> Vector3d -> Spectrum * double;
  edf_sample : EnvironmentEDF -> Vector2d -> Vector3d * Spectrum * double;
  mis_power2 : double -> double -> double;
  DiracDelta : double
}.

Section Estimators.
Context {col : Collaborators}.

(** The arguments shared by the three functions. *)
Record Inputs := mkInputs {
  environment_edf : EnvironmentEDF;
  point : Vector3d;
  geometric_normal : Vector3d;
  shading_basis : Basis3d;
  time : double;
  outgoing : Vector3d;
  bsdf : BSDF;
  bsdf_data : BSDFData;
  bsdf_sample_count : size_t;
  env_sample_count : size_t;
  parent_shading_point : option ParentShadingPoint
}.

(** What a loop carries from one sample to the next. *)
Record LoopState := mkLoopState {
  radiance : Spectrum;
  sampling_context : SamplingContext;
  events : list Event
}.

(** Lines 128-134. *)
Definition bsdf_sampling_mis_weight (a : Inputs) (bsdf_prob env_prob : double)
    : double :=
  if F64.eqb bsdf_prob DiracDelta then F64.one
  else
    mis_power2
      (F64.mul (F64.of_N (bsdf_sample_count a)) bsdf_prob)
      (F64.mul (F64.of_N (env_sample_count a)) env_prob).

(** Lines 74-139: the body of the loop of [compute_ibl_bsdf_sampling]. *)
Definition bsdf_sampling_iteration (a : Inputs) (st : LoopState) : LoopState :=
  let '(smp, sc) :=
    bsdf_sample (bsdf a) (sampling_context st) (bsdf_data a) false true
      (geometric_normal a) (shading_basis a) (outgoing a) in
  if negb (smp_mode smp =? BSDFMode.Diffuse) then
    mkLoopState (radiance st) sc (events st)
  else
    let '(is_hit, transmission, sc) :=
      tracer_trace sc (point a) (smp_incoming smp) (time a)
        (parent_shading_point a) in
    let ev := CallTracerTrace (smp_incoming smp) :: events st in
    if is_hit then mkLoopState (radiance st) sc ev
    else
      let '(env_value, env_prob) :=
        edf_evaluate (environment_edf a) (smp_incoming smp) in
      let ev := CallEnvironmentEvaluate (smp_incoming smp) :: ev in
      let mis_weight := bsdf_sampling_mis_weight a (smp_prob smp) env_prob in
      let env_value :=
        SpectrumOps.scale env_value
          (to_float
             (F64.div (F64.mul transmission mis_weight) (smp_prob smp))) in
      let env_value := SpectrumOps.mul env_value (smp_value smp) in
      mkLoopState (SpectrumOps.add (radiance st) env_value) sc ev.

(** [radiance /= static_cast<float>(count)] when [count > 1]. *)
Definition average (count : size_t) (st : LoopState) : LoopState :=
  if (1 <? count)%N then
    mkLoopState
      (SpectrumOps.div (radiance st) (F32.of_N count))
      (sampling_context st) (events st)
  else st.

(** [compute_ibl_bsdf_sampling]; [radiance] is the caller's spectrum, set
    to zero on entry. *)
Definition compute_ibl_bsdf_sampling (a : Inputs) (st : LoopState)
    : LoopState :=
  let st :=
    mkLoopState (SpectrumOps.set (radiance st) F32.zero)
      (sampling_context st) (events st) in
  average (bsdf_sample_count a)
    (N.iter (bsdf_sample_count a) (bsdf_sampling_iteration a) st).

(** Lines 228-232. *)
Definition env_sampling_mis_weight (a : Inputs) (env_prob bsdf_prob : double)
    : double :=
  mis_power2
    (F64.mul (F64.of_N (env_sample_count a)) env_prob)
    (F64.mul (F64.of_N (bsdf_sample_count a)) bsdf_prob).

(** Lines 177-237: the body of the loop of
    [compute_ibl_environment_sampling].  The tracer works on a copy of the
    sampling context. *)
Definition env_sampling_iteration (a : Inputs) (st : LoopState) : LoopState :=
  let '(s, sc) := next_vector2 (sampling_context st) in
  let '(incoming, env_value, env_prob) := edf_sample (environment_edf a) s in
  let '(is_hit, transmission, _) :=
    tracer_trace sc (point a) incoming (time a) (parent_shading_point a) in
  let ev := CallTracerTrace incoming :: events st in
  if is_hit then mkLoopState (radiance st) sc ev
  else
    let ev := CallBSDFEvaluate incoming :: ev in
    match
      bsdf_evaluate (bsdf a) (bsdf_data a) false true (geometric_normal a)
        (shading_basis a) (outgoing a) incoming
    with
    | None => mkLoopState (radiance st) sc ev
    | Some (bsdf_value, bsdf_prob) =>
      let mis_weight := env_sampling_mis_weight a env_prob bsdf_prob in
      let env_value :=
        SpectrumOps.scale env_value
          (to_float (F64.mul (F64.div transmission env_prob) mis_weight)) in
      let env_value := SpectrumOps.mul env_value bsdf_value in
      mkLoopState (SpectrumOps.add (radiance st) env_value) sc ev
    end.

Definition compute_ibl_environment_sampling (a : Inputs) (st : LoopState)
    : LoopState :=
  let st :=
    mkLoopState (SpectrumOps.set (radiance st) F32.zero)
      (split_in_place 2 (env_sample_count a) (sampling_context st))
      (events st) in
  average (env_sample_count a)
    (N.iter (env_sample_count a) (env_sampling_iteration a) st).

(** [compute_image_based_lighting]. *)
Definition compute_image_based_lighting (a : Inputs) (st : LoopState)
    : LoopState :=
  let st1 := compute_ibl_bsdf_sampling a st in
  let st2 := compute_ibl_environment_sampling a st1 in
  mkLoopState (SpectrumOps.add (radiance st1) (radiance st2))
    (sampling_context st2) (events st2).

End Estimators.
End ImageBasedLighting.

(* ================================================================== *)
(** * The light-tracing path visitor ([lighttracingsamplegenerator.cpp]) *)
(* ================================================================== *)

(** Modelled from the spec: the operators on [Vector3d]
    ([foundation/math/vector.h] is not among the sources), the usual
    difference, dot product, squared norm and division by a scalar, taken
    component by component in binary64, the dot product summed from left to
    right. *)
Module Vec3.
Definition neg (v : Vector3d) : Vector3d :=
  mkVector3d (F64.opp (v3_x v)) (F64.opp (v3_y v)) (F64.opp (v3_z v)).
Definition sub (a b : Vector3d) : Vector3d :=
  mkVector3d (F64.sub (v3_x a) (v3_x b)) (F64.sub (v3_y a) (v3_y b))
    (F64.sub (v3_z a) (v3_z b)).
Definition div (v : Vector3d) (k : double) : Vector3d :=
  mkVector3d (F64.div (v3_x v) k) (F64.div (v3_y v) k) (F64.div (v3_z v) k).
Definition dot (a b : Vector3d) : double :=
  F64.add
    (F64.add (F64.mul (v3_x a) (v3_x b)) (F64.mul (v3_y a) (v3_y b)))
    (F64.mul (v3_z a) (v3_z b)).
Definition square_norm (v : Vector3d) : double := dot v v.
Definition normalize (v : Vector3d) : Vector3d := div v (F64.sqrt (square_norm v)).
End Vec3.

Module LightTracing.

Record Color3f := mkColor3f { c_r : float; c_g : float; c_b : float }.

(** [Sample]: position in NDC, RGB colour and alpha. *)
Record Sample := mkSample {
  m_position : Vector2d;
  m_color_rgb : Color3f;
  m_color_alpha : float
}.

(** The interfaces the visitor consumes. *)
Class Collaborators := {
  SamplingContext : Type;
  BSDF : Type;
  BSDFData : Type;
  Basis3d : Type;
  (** [m_camera.get_transform()]: to camera space and back. *)
  transform_point_to_local : Vector3d -> Vector3d;
  transform_point_to_parent : Vector3d -> Vector3d;
  transform_vector_to_parent : Vector3d -> Vector3d;
  (** [Camera::project], [Camera::get_film_dimensions],
      [Camera::get_focal_length]. *)
  project : Vector3d -> Vector2d;
  get_film_dimensions : Vector2d;
  get_focal_length : double;
  (** [compute_transmission_between(sampling_context, shading_context,
      origin, target)]. *)
  compute_transmission_between :
    SamplingContext -> Vector3d -> Vector3d -> double * SamplingContext;
  (** [BSDF::evaluate(data, adjoint, geometric_normal, shading_basis,
      outgoing, incoming, value)]. *)
  bsdf_evaluate :
    BSDF -> BSDFData -> bool -> Vector3d -> Basis3d -> Vector3d -> Vector3d ->
    Spectrum;
  (** [ciexyz_to_linear_rgb(spectrum_to_ciexyz<float>(lighting_conditions,
      radiance))]. *)
  spectrum_to_linear_rgb : Spectrum -> Color3f
}.

Section Visitor.
Context {col : Collaborators}.

(** The part of a [ShadingPoint] the visitor reads. *)
Record ShadingPoint := mkShadingPoint {
  get_point : Vector3d;
  get_shading_normal : Vector3d;
  get_geometric_normal : Vector3d;
  get_shading_basis : Basis3d
}.

(** The data members of [PathVisitor]; [m_samples] is the vector the
    visitor holds by reference. *)
Record PathVisitor := mkPathVisitor {
  m_camera_position : Vector3d;
  m_camera_direction : Vector3d;
  m_rcp_film_area : double;
  m_focal_length : double;
  m_samples : list Sample;
  m_sample_count : size_t;
  m_alpha : Spectrum
}.

Definition zero3 : Vector3d := mkVector3d F64.zero F64.zero F64.zero.

(** The constructor. *)
Definition make_path_visitor (samples : list Sample) (initial_alpha : Spectrum)
    : PathVisitor :=
  mkPathVisitor
    (transform_point_to_parent zero3)
    (transform_vector_to_parent
       (mkVector3d F64.zero F64.zero (F64.opp F64.one)))
    (F64.div F64.one
       (F64.mul (v2_x get_film_dimensions) (v2_y get_film_dimensions)))
    get_focal_length samples 0%N initial_alpha.

Definition get_sample_count (v : PathVisitor) : size_t := m_sample_count v.

(** Lines 180-181 and 251-252: the vertex does not project into the image
    plane. *)
Definition outside_image_plane (ndc : Vector2d) : bool :=
  F64.ltb (v2_x ndc) F64.zero || F64.geb (v2_x ndc) F64.one
  || F64.ltb (v2_y ndc) F64.zero || F64.geb (v2_y ndc) F64.one.

(** Lines 198-200 and 269-271. *)
Definition vertex_to_camera_dir (v : PathVisitor) (vertex_position_world : Vector3d)
    : Vector3d :=
  let vertex_to_camera := Vec3.sub (m_camera_position v) vertex_position_world in
  Vec3.div vertex_to_camera (F64.sqrt (Vec3.square_norm vertex_to_camera)).

(** Lines 203 and 293. *)
Definition cos_theta_of (v : PathVisitor) (vertex_to_camera : Vector3d) : double :=
  F64.abs (Vec3.dot (Vec3.neg vertex_to_camera) (m_camera_direction v)).

(** Lines 204 and 294. *)
Definition dist_pixel_to_camera_of (v : PathVisitor) (cos_theta : double) : double :=
  F64.div (m_focal_length v) cos_theta.

(** Lines 207 and 297. *)
Definition flux_to_radiance_of (v : PathVisitor) (cos_theta : double) : double :=
  F64.mul
    (F64.square (F64.div (dist_pixel_to_camera_of v cos_theta) cos_theta))
    (m_rcp_film_area v).

(** Lines 219-227 and 313-321. *)
Definition push_sample (v : PathVisitor) (alpha : Spectrum) (ndc : Vector2d)
    (radiance : Spectrum) : PathVisitor :=
  let sample := mkSample ndc (spectrum_to_linear_rgb radiance) F32.one in
  mkPathVisitor (m_camera_position v) (m_camera_direction v)
    (m_rcp_film_area v) (m_focal_length v)
    (m_samples v ++ [sample]) (size_t_incr (m_sample_count v)) alpha.

(** [PathVisitor::visit_light_vertex]. *)
Definition visit_light_vertex (v : PathVisitor) (sc : SamplingContext)
    (vertex_position_world : Vector3d) : PathVisitor * SamplingContext :=
  let vertex_position_camera := transform_point_to_local vertex_position_world in
  let sample_position_ndc := project vertex_position_camera in
  if outside_image_plane sample_position_ndc then (v, sc)
  else
    let '(transmission, sc) :=
      compute_transmission_between sc (m_camera_position v)
        vertex_position_world in
    if F64.eqb transmission F64.zero then (v, sc)
    else
      let square_distance :=
        Vec3.square_norm (Vec3.sub (m_camera_position v) vertex_position_world) in
      let vertex_to_camera := vertex_to_camera_dir v vertex_position_world in
      let cos_theta := cos_theta_of v vertex_to_camera in
      let flux_to_radiance := flux_to_radiance_of v cos_theta in
      let g := F64.div cos_theta square_distance in
      let radiance :=
        SpectrumOps.scale (m_alpha v)
          (to_float (F64.mul (F64.mul transmission g) flux_to_radiance)) in
      (push_sample v (m_alpha v) sample_position_ndc radiance, sc).

(** [PathVisitor::visit_vertex]. *)
Definition visit_vertex (v : PathVisitor) (sc : SamplingContext)
    (shading_point : ShadingPoint) (outgoing : Vector3d) (bsdf : BSDF)
    (bsdf_data : BSDFData) (bsdf_mode : Mode) (bsdf_prob : double)
    (throughput : Spectrum) : PathVisitor * SamplingContext :=
  let vertex_position_world := get_point shading_point in
  let vertex_position_camera := transform_point_to_local vertex_position_world in
  let sample_position_ndc := project vertex_position_camera in
  if outside_image_plane sample_position_ndc then (v, sc)
  else
    let '(transmission, sc) :=
      compute_transmission_between sc (m_camera_position v)
        vertex_position_world in
    if F64.eqb transmission F64.zero then (v, sc)
    else
      let square_distance :=
        Vec3.square_norm (Vec3.sub (m_camera_position v) vertex_position_world) in
      let vertex_to_camera := vertex_to_camera_dir v vertex_position_world in
      let shading_normal := get_shading_normal shading_point in
      let geometric_normal := get_geometric_normal shading_point in
      let geometric_normal :=
        if F64.ltb (Vec3.dot shading_normal geometric_normal) F64.zero
        then Vec3.neg geometric_normal else geometric_normal in
      let bsdf_value :=
        bsdf_evaluate bsdf bsdf_data true geometric_normal
          (get_shading_basis shading_point) outgoing vertex_to_camera in
      let cos_theta := cos_theta_of v vertex_to_camera in
      let flux_to_radiance := flux_to_radiance_of v cos_theta in
      let g := F64.div cos_theta square_distance in
      let alpha := SpectrumOps.mul (m_alpha v) throughput in
      let radiance := SpectrumOps.mul alpha bsdf_value in
      let radiance :=
        SpectrumOps.scale radiance
          (to_float (F64.mul (F64.mul transmission g) flux_to_radiance)) in
      (push_sample v alpha sample_position_ndc radiance, sc).

(** [PathVisitor::visit_environment]: empty. *)
Definition visit_environment (v : PathVisitor) : PathVisitor := v.

End Visitor.

(** The factor as the specification words it:
    [dist_pixel_to_camera² × rcp_film_area]. *)
Definition flux_to_radiance_as_specified (focal_length rcp_film_area cos_theta : double)
    : double :=
  F64.mul (F64.square (F64.div focal_length cos_theta)) rcp_film_area.

End LightTracing.

(* ================================================================== *)
(** * The power heuristic *)
(* ================================================================== *)

Module PowerHeuristic.

(** Modelled from the spec: [mis_power2] ([foundation/math/mis.h] is not
    among the sources), "the power-heuristic MIS weight with exponent 2"
    between two sampling densities.  Its callers pass and receive [double],
    so the squares, their sum and the quotient are binary64 operations. *)
Definition mis_power2 (q1 q2 : double) : double :=
  F64.div (F64.mul q1 q1) (F64.add (F64.mul q1 q1) (F64.mul q2 q2)).

End PowerHeuristic.

(* ================================================================== *)
(** * Magnitudes of binary64 numbers *)
(* ================================================================== *)

Module Magnitude.




End Magnitude.

(* ================================================================== *)
(** * Concrete scenes *)
(* ================================================================== *)

(** Small collaborators on which the kernel can be run: the sampling
    context is the list of numbers still to be drawn ([1/2] once it is
    exhausted), a surface shader is its alpha value, a BSDF is the sample
    it returns, the visitor accepts every vertex and records the throughput
    it is shown. *)
Module Scenes.
Import PathTracer.

Definition half : double := F64.div F64.one (F64.of_Z 2).
Definition minus_one : double := F64.opp F64.one.
Definition origin : Vector3d := mkVector3d F64.zero F64.zero F64.zero.
Definition down_z : Vector3d := mkVector3d F64.zero F64.zero minus_one.
Definition uv0 : Vector2d := mkVector2d F64.zero F64.zero.

Definition entities : Entities := {|
  SamplingContext := list double;
  SurfaceShader := float;
  BSDF := BSDFSample;
  BSDFData := unit;
  Basis3d := unit;
  Visitor := list Spectrum
|}.

Definition collaborators
    (intersect : ShadingRay -> option (@ShadingPoint entities) ->
                 @ShadingPoint entities)
    : @Collaborators entities := {|
  split_in_place := fun _ _ (sc : @SamplingContext entities) => sc;
  next_double2 := fun (sc : @SamplingContext entities) =>
    match sc with
    | [] => (half, [])
    | s :: sc' => (s, sc')
    end;
  intersector_trace := intersect;
  evaluate_alpha_mask := fun (ss : @SurfaceShader entities) sc _ => (ss, sc);
  evaluate_inputs := fun _ _ => tt;
  bsdf_sample := fun (b : @BSDF entities) sc _ _ _ _ _ _ => (b, sc);
  DiracDelta := minus_one;
  normalize_neg := fun v => Vec3.normalize (Vec3.neg v);
  visit_environment := fun (v : @Visitor entities) _ _ _ _ => v;
  visit_vertex := fun (v : @Visitor entities) sc _ _ _ _ _ _ throughput =>
    (true, throughput :: v, sc);
  spectrum_samples := 1
|}.

Definition ray0 : ShadingRay := mkShadingRay origin down_z F64.zero all_ray_flags.

Definition miss (ray : ShadingRay) : @ShadingPoint entities :=
  mkShadingPoint (ent := entities) false ray origin None uv0 down_z tt.

Definition surface (alpha : float) (b : BSDFSample) (ray : ShadingRay)
    : @ShadingPoint entities :=
  mkShadingPoint (ent := entities) true ray origin
    (Some (mkMaterial (ent := entities) (Some alpha) (Some b))) uv0 down_z tt.

(** All scattering modes accepted. *)
Definition all_modes : Z :=
  Z.lor BSDFMode.Diffuse (Z.lor BSDFMode.Glossy BSDFMode.Specular).

Definition parameters (rr_min max_len : size_t) : Parameters := {|
  ScatteringModesMask := all_modes;
  Adjoint := false;
  m_rr_min_path_length := rr_min;
  m_max_path_length := max_len
|}.
Arguments parameters (rr_min max_len)%_N.

(** A diffuse sample of value [1/2] and probability [1/2]. *)
Definition grey : BSDFSample :=
  mkBSDFSample down_z [to_float half] half BSDFMode.Diffuse.

(** A perfectly specular sample: value 1, sentinel probability. *)
Definition specular_bounce : BSDFSample :=
  mkBSDFSample down_z [F32.one] minus_one BSDFMode.Specular.

(** The stub of the regression test of the specification: an infinite
    value with a probability close to zero. *)
Definition tiny : double := F64.div F64.one (F64.of_Z (10 ^ 30)).
Definition blow_up : BSDFSample :=
  mkBSDFSample down_z [S754_infinity false] tiny BSDFMode.Diffuse.

(** Every ray hits an opaque surface carrying [b]. *)
Definition opaque_room (b : BSDFSample) : @Collaborators entities :=
  collaborators (fun ray _ => surface F32.one b ray).

(** Every ray hits a fully transparent surface (coincident cut-out
    faces: the continuation ray leaves one and meets the other). *)
Definition transparent_stack : @Collaborators entities :=
  collaborators (fun ray _ => surface F32.zero grey ray).

(** Every ray hits a surface of alpha [1/2]. *)
Definition veil : @Collaborators entities :=
  collaborators (fun ray _ => surface (to_float half) grey ray).

(** One fully transparent surface in front of the environment: a ray
    with no parent hits it, a ray leaving a surface escapes. *)
Definition single_cutout : @Collaborators entities :=
  collaborators
    (fun ray parent =>
       match parent with
       | None => surface F32.zero grey ray
       | Some _ => miss ray
       end).

(** Number of surfaces a continuation ray can still meet in
    [single_cutout]. *)
Definition cutout_layers (sp : @ShadingPoint entities) : nat :=
  if hit sp then 1%nat else 0%nat.

(** The state on entry of the loop, on a surface of the given alpha that
    carries [grey]. *)
Definition on_surface (col : @Collaborators entities) (alpha : float)
    : @PathState entities :=
  @initial_state entities col [] [] (surface alpha grey ray0).

(** *** A pinhole camera for the light-tracing visitor

    The camera sits at the origin and looks down the negative z axis; film
    of 1 x 1, focal length 1; every vertex projects to the centre of the
    image and is fully visible; the colour conversion keeps the first
    spectral sample. *)
Definition first_sample (s : Spectrum) : float := hd F32.zero s.

Definition pinhole : LightTracing.Collaborators := {|
  LightTracing.SamplingContext := unit;
  LightTracing.BSDF := Spectrum;
  LightTracing.BSDFData := unit;
  LightTracing.Basis3d := unit;
  LightTracing.transform_point_to_local := fun p => p;
  LightTracing.transform_point_to_parent := fun p => p;
  LightTracing.transform_vector_to_parent := fun v => v;
  LightTracing.project := fun _ => mkVector2d half half;
  LightTracing.get_film_dimensions := mkVector2d F64.one F64.one;
  LightTracing.get_focal_length := F64.one;
  LightTracing.compute_transmission_between := fun sc _ _ => (F64.one, sc);
  LightTracing.bsdf_evaluate := fun (b : Spectrum) _ _ _ _ _ _ => b;
  LightTracing.spectrum_to_linear_rgb := fun s =>
    LightTracing.mkColor3f (first_sample s) (first_sample s) (first_sample s)
|}.

(** The same camera behind a wall: nothing is visible from it. *)
Definition walled_in : LightTracing.Collaborators := {|
  LightTracing.SamplingContext := unit;
  LightTracing.BSDF := Spectrum;
  LightTracing.BSDFData := unit;
  LightTracing.Basis3d := unit;
  LightTracing.transform_point_to_local := fun p => p;
  LightTracing.transform_point_to_parent := fun p => p;
  LightTracing.transform_vector_to_parent := fun v => v;
  LightTracing.project := fun _ => mkVector2d half half;
  LightTracing.get_film_dimensions := mkVector2d F64.one F64.one;
  LightTracing.get_focal_length := F64.one;
  LightTracing.compute_transmission_between := fun sc _ _ => (F64.zero, sc);
  LightTracing.bsdf_evaluate := fun (b : Spectrum) _ _ _ _ _ _ => b;
  LightTracing.spectrum_to_linear_rgb := fun s =>
    LightTracing.mkColor3f (first_sample s) (first_sample s) (first_sample s)
|}.

(** A particle of unit weight. *)
Definition unit_particle (col : LightTracing.Collaborators)
    : LightTracing.PathVisitor :=
  @LightTracing.make_path_visitor col [] [F32.one].

(** A vertex off the optical axis: the cosine to the gaze is 4/5. *)
Definition off_axis : Vector3d :=
  mkVector3d F64.zero (F64.of_Z 3) (F64.of_Z (-4)).

Definition off_axis_point (col : LightTracing.Collaborators)
    (basis : @LightTracing.Basis3d col) : @LightTracing.ShadingPoint col :=
  @LightTracing.mkShadingPoint col off_axis down_z down_z basis.

(** *** Collaborators for image-based lighting

    The BSDF returns the sample it is made of, the environment is a
    radiance with a probability, the tracer reports [occluded] and a
    transmission of 1, the MIS weight is the power heuristic. *)
Definition sky (occluded : bool) : ImageBasedLighting.Collaborators := {|
  ImageBasedLighting.SamplingContext := unit;
  ImageBasedLighting.BSDF := ImageBasedLighting.BSDFSample;
  ImageBasedLighting.BSDFData := unit;
  ImageBasedLighting.Basis3d := unit;
  ImageBasedLighting.EnvironmentEDF := (Spectrum * double)%type;
  ImageBasedLighting.ParentShadingPoint := unit;
  ImageBasedLighting.split_in_place := fun _ _ sc => sc;
  ImageBasedLighting.next_vector2 := fun sc => (uv0, sc);
  ImageBasedLighting.bsdf_sample :=
    fun (b : ImageBasedLighting.BSDFSample) sc _ _ _ _ _ _ => (b, sc);
  ImageBasedLighting.bsdf_evaluate :=
    fun (b : ImageBasedLighting.BSDFSample) _ _ _ _ _ _ _ =>
      Some (ImageBasedLighting.smp_value b, ImageBasedLighting.smp_prob b);
  ImageBasedLighting.tracer_trace := fun sc _ _ _ _ => (occluded, F64.one, sc);
  ImageBasedLighting.edf_evaluate := fun (e : Spectrum * double) _ => e;
  ImageBasedLighting.edf_sample :=
    fun (e : Spectrum * double) _ => (down_z, fst e, snd e);
  ImageBasedLighting.mis_power2 := PowerHeuristic.mis_power2;
  ImageBasedLighting.DiracDelta := minus_one
|}.

(** One BSDF sample and one environment sample under a sky of radiance 1
    and probability 1/2. *)
Definition under_the_sky (occluded : bool) (b : ImageBasedLighting.BSDFSample)
    : @ImageBasedLighting.Inputs (sky occluded) :=
  @ImageBasedLighting.mkInputs (sky occluded) ([F32.one], half) origin down_z tt
    F64.zero down_z b tt 1%N 1%N None.

Definition dark (occluded : bool) : @ImageBasedLighting.LoopState (sky occluded) :=
  @ImageBasedLighting.mkLoopState (sky occluded) [F32.zero] tt [].

Definition lambertian : ImageBasedLighting.BSDFSample :=
  ImageBasedLighting.mkBSDFSample down_z [to_float half] half BSDFMode.Diffuse.
Definition shiny : ImageBasedLighting.BSDFSample :=
  ImageBasedLighting.mkBSDFSample down_z [to_float half] half BSDFMode.Glossy.
Definition mirror : ImageBasedLighting.BSDFSample :=
  ImageBasedLighting.mkBSDFSample down_z [F32.one] minus_one BSDFMode.Specular.

End Scenes.

(* ================================================================== *)
(** * The spot light ([spotlight.cpp]) *)
(* ================================================================== *)

Module SpotLight.

(** [SpotLight::InputValues]. *)
Record InputValues := mkInputValues {
  m_exitance : Spectrum;
  m_exitance_alpha : float;
  m_exitance_multiplier : double
}.

(** The helpers of [foundation/math/sampling.h] and
    [foundation/math/scalar.h], which are not among the sources. *)
Class Collaborators := {
  sample_cone_uniform : Vector2d -> double -> Vector3d;
  sample_cone_uniform_pdf : double -> double;
  smoothstep : double -> double -> double -> double
}.

(** The data members that [on_frame_begin] computes and the other member
    functions read; [m_transform] is kept as its [vector_to_parent]. *)
Record Light := mkLight {
  m_cos_inner_half_angle : double;
  m_cos_outer_half_angle : double;
  m_axis : Vector3d;
  m_transform_vector_to_parent : Vector3d -> Vector3d
}.

Section Members.
Context {col : Collaborators}.

(** [SpotLight::compute_exitance]. *)
Definition compute_exitance (l : Light) (data : InputValues)
    (cos_theta : double) : Spectrum :=
  let exitance :=
    SpectrumOps.scale (m_exitance data)
      (to_float (m_exitance_multiplier data)) in
  if F64.ltb cos_theta (m_cos_inner_half_angle l) then
    SpectrumOps.scale exitance
      (to_float
         (smoothstep (m_cos_outer_half_angle l) (m_cos_inner_half_angle l)
            cos_theta))
  else exitance.

(** [SpotLight::sample]: [outgoing], [value], [probability]. *)
Definition sample (l : Light) (data : InputValues) (s : Vector2d)
    : Vector3d * Spectrum * double :=
  let wo := sample_cone_uniform s (m_cos_outer_half_angle l) in
  (m_transform_vector_to_parent l wo,
   compute_exitance l data (v3_y wo),
   sample_cone_uniform_pdf (m_cos_outer_half_angle l)).

(** [SpotLight::evaluate(data, outgoing, value)]; [value] is the caller's
    spectrum. *)
Definition evaluate (l : Light) (data : InputValues) (outgoing : Vector3d)
    (value : Spectrum) : Spectrum :=
  let cos_theta := Vec3.dot outgoing (m_axis l) in
  if F64.ltb (m_cos_outer_half_angle l) cos_theta
  then compute_exitance l data cos_theta
  else SpectrumOps.set value F32.zero.

(** [SpotLight::evaluate(data, outgoing, value, probability)]. *)
Definition evaluate_with_probability (l : Light) (data : InputValues)
    (outgoing : Vector3d) (value : Spectrum) : Spectrum * double :=
  let cos_theta := Vec3.dot outgoing (m_axis l) in
  if F64.ltb (m_cos_outer_half_angle l) cos_theta
  then (compute_exitance l data cos_theta,
        sample_cone_uniform_pdf (m_cos_outer_half_angle l))
  else (SpectrumOps.set value F32.zero, to_double F32.zero).

(** [SpotLight::evaluate_pdf]. *)
Definition evaluate_pdf (l : Light) (data : InputValues) (outgoing : Vector3d)
    : double :=
  let cos_theta := Vec3.dot outgoing (m_axis l) in
  if F64.ltb (m_cos_outer_half_angle l) cos_theta
  then sample_cone_uniform_pdf (m_cos_outer_half_angle l)
  else F64.zero.

End Members.
End SpotLight.

(* ================================================================== *)
(** * Counting the calls of the estimator and of the visitor *)
(* ================================================================== *)

Module Accounting.

Definition is_tracer_trace (e : ImageBasedLighting.Event) : bool :=
  match e with ImageBasedLighting.CallTracerTrace _ => true | _ => false end.

Definition is_lookup (e : ImageBasedLighting.Event) : bool :=
  match e with
  | ImageBasedLighting.CallEnvironmentEvaluate _
  | ImageBasedLighting.CallBSDFEvaluate _ => true
  | _ => false
  end.

(** Occlusion rays traced so far, and environment or BSDF evaluations made
    so far. *)
Definition rays_traced (events : list ImageBasedLighting.Event) : nat :=
  length (filter is_tracer_trace events).
Definition lookups (events : list ImageBasedLighting.Event) : nat :=
  length (filter is_lookup events).

(** A coordinate that passes the image-plane test of the visitor: a NaN, or
    a number of [0,1). *)
Definition passes_plane_test (c : double) : Prop :=
  is_nan c = true \/ (nonneg c = true /\ F64.ltb c F64.one = true).

(** The camera as the visitor caches it. *)
Definition same_camera (v v' : LightTracing.PathVisitor) : Prop :=
  LightTracing.m_camera_position v' = LightTracing.m_camera_position v
  /\ LightTracing.m_camera_direction v' = LightTracing.m_camera_direction v
  /\ LightTracing.m_rcp_film_area v' = LightTracing.m_rcp_film_area v
  /\ LightTracing.m_focal_length v' = LightTracing.m_focal_length v.

(** What a visit may do to the samples of the visitor: nothing at all, or
    append one sample at [ndc]. *)
Definition appended (v v' : LightTracing.PathVisitor) (ndc : Vector2d) : Prop :=
  v' = v
  \/ exists s,
       LightTracing.m_samples v' = LightTracing.m_samples v ++ [s]
       /\ LightTracing.m_sample_count v'
          = size_t_incr (LightTracing.m_sample_count v)
       /\ LightTracing.m_position s = ndc
       /\ LightTracing.m_color_alpha s = F32.one
       /\ passes_plane_test (v2_x ndc) /\ passes_plane_test (v2_y ndc).

(** The visitor's count is the number of samples it added to the vector
    [samples0] it was given, as a [size_t]. *)
Definition tracks (samples0 : list LightTracing.Sample)
    (v : LightTracing.PathVisitor) : Prop :=
  exists added,
    LightTracing.m_samples v = samples0 ++ added
    /\ LightTracing.m_sample_count v
       = (N.of_nat (length added) mod size_t_modulus)%N.

End Accounting.

(* ================================================================== *)
(** * More concrete scenes *)
(* ================================================================== *)

Module MoreScenes.
Import Scenes.

(** A ray that leaves the scene, and a surface with no material. *)
Definition bare_surface (ray : ShadingRay) : @PathTracer.ShadingPoint entities :=
  PathTracer.mkShadingPoint (ent := entities) true ray origin None uv0 down_z tt.

(** Every ray hits an opaque surface, and every surface scatters like
    [grey], whatever BSDF it carries. *)
Definition matte_room : @PathTracer.Collaborators entities := {|
  PathTracer.split_in_place :=
    fun _ _ (sc : @PathTracer.SamplingContext entities) => sc;
  PathTracer.next_double2 :=
    fun (sc : @PathTracer.SamplingContext entities) =>
      match sc with
      | [] => (half, [])
      | s :: sc' => (s, sc')
      end;
  PathTracer.intersector_trace := fun ray _ => surface F32.one grey ray;
  PathTracer.evaluate_alpha_mask :=
    fun (ss : @PathTracer.SurfaceShader entities) sc _ => (ss, sc);
  PathTracer.evaluate_inputs := fun _ _ => tt;
  PathTracer.bsdf_sample := fun _ sc _ _ _ _ _ _ => (grey, sc);
  PathTracer.DiracDelta := minus_one;
  PathTracer.normalize_neg := fun v => Vec3.normalize (Vec3.neg v);
  PathTracer.visit_environment :=
    fun (v : @PathTracer.Visitor entities) _ _ _ _ => v;
  PathTracer.visit_vertex :=
    fun (v : @PathTracer.Visitor entities) sc _ _ _ _ _ _ throughput =>
      (true, throughput :: v, sc);
  PathTracer.spectrum_samples := 1
|}.

(** No sample asked of either technique, under the sky of [Scenes]. *)
Definition no_samples (occluded : bool) (b : ImageBasedLighting.BSDFSample)
    : @ImageBasedLighting.Inputs (sky occluded) :=
  @ImageBasedLighting.mkInputs (sky occluded) ([F32.one], half) origin down_z tt
    F64.zero down_z b tt 0%N 0%N None.

(** Sixteen BSDF samples and three environment samples. *)
Definition many_samples (occluded : bool) (b : ImageBasedLighting.BSDFSample)
    : @ImageBasedLighting.Inputs (sky occluded) :=
  @ImageBasedLighting.mkInputs (sky occluded) ([F32.one], half) origin down_z tt
    F64.zero down_z b tt 16%N 3%N None.

(** A cone of 60 degrees around the y axis with a uniform density; the
    smooth step of the falloff is replaced by a constant 1/2. *)
Definition cone : SpotLight.Collaborators := {|
  SpotLight.sample_cone_uniform := fun _ _ =>
    mkVector3d F64.zero F64.one F64.zero;
  SpotLight.sample_cone_uniform_pdf := fun _ => F64.one;
  SpotLight.smoothstep := fun _ _ _ => half
|}.

Definition up_y : Vector3d := mkVector3d F64.zero F64.one F64.zero.

Definition spot : SpotLight.Light :=
  SpotLight.mkLight (F64.div (F64.of_Z 3) (F64.of_Z 4)) half up_y (fun v => v).

Definition white : SpotLight.InputValues :=
  SpotLight.mkInputValues [F32.one] F32.one (F64.of_Z 2).

End MoreScenes.

(* ================================================================== *)
(** * Properties of the IEEE operations *)
(* ================================================================== *)

Unset Implicit Arguments.

Module IEEEFacts.

Lemma iter_pos_invariant (A : Type) (f : A -> A) (P : A -> Prop) :
  (forall x, P x -> P (f x)) -> forall p x, P x -> P (iter_pos f p x).
Proof.
  intros Hf p; induction p as [p IH | p IH | ]; intros x Hx; simpl.
  - apply IH, IH, Hf, Hx.
  - apply IH, IH, Hx.
  - apply Hf, Hx.
Qed.

Lemma shr_1_nonneg mrs : 0 <= shr_m mrs -> 0 <= shr_m (shr_1 mrs).
Proof.
  destruct mrs as [m r s]; simpl.
  destruct m as [ | [p | p | ] | p]; simpl; lia.
Qed.

Lemma shr_nonneg mrs e n : 0 <= shr_m mrs -> 0 <= shr_m (fst (shr mrs e n)).
Proof.
  intros H; unfold shr; destruct n; simpl; auto.
  apply iter_pos_invariant; auto using shr_1_nonneg.
Qed.

Lemma shr_fexp_nonneg prec emax m e l :
  0 <= m -> 0 <= shr_m (fst (shr_fexp prec emax m e l)).
Proof.
  intros H; unfold shr_fexp; apply shr_nonneg.
  destruct l as [ | [ | | ]]; simpl; exact H.
Qed.

Lemma round_nearest_even_nonneg m l : 0 <= m -> 0 <= round_nearest_even m l.
Proof.
  intros H; unfold round_nearest_even.
  destruct l as [ | [ | | ]]; try destruct (Z.even m); lia.
Qed.

(** Rounding keeps the sign it is given and never produces a NaN. *)
Lemma binary_round_aux_sign prec emax sx mx ex lx :
  0 <= mx -> has_sign sx (binary_round_aux prec emax sx mx ex lx).
Proof.
  intros H; unfold binary_round_aux.
  pose proof (shr_fexp_nonneg prec emax mx ex lx H) as H1.
  destruct (shr_fexp prec emax mx ex lx) as [mrs' e']; simpl in H1.
  pose proof (shr_fexp_nonneg prec emax
                (round_nearest_even (shr_m mrs') (loc_of_shr_record mrs'))
                e' loc_Exact (round_nearest_even_nonneg _ _ H1)) as H2.
  destruct (shr_fexp prec emax _ e' loc_Exact) as [mrs'' e'']; simpl in H2.
  destruct (shr_m mrs'') as [ | m | m]; simpl; auto; try lia.
  destruct (e'' <=? emax - prec); simpl; reflexivity.
Qed.

Lemma has_sign_nonneg x : has_sign false x -> nonneg x = true.
Proof. destruct x as [s | s | | s m e]; simpl; intros H; subst; easy. Qed.

Lemma nonneg_finite_cases x :
  is_finite x = true -> nonneg x = true ->
  (exists s, x = S754_zero s) \/ (exists m e, x = S754_finite false m e).
Proof.
  destruct x as [s | s | | [ | ] m e]; simpl; try discriminate; eauto.
Qed.

(** The product of two finite, non-negative values is non-negative and is
    not a NaN (it is [+Inf] when the product overflows). *)
Lemma mul_nonneg prec emax a b :
  is_finite a = true -> nonneg a = true ->
  is_finite b = true -> nonneg b = true ->
  nonneg (SFmul prec emax a b) = true.
Proof.
  intros Fa Na Fb Nb.
  destruct (nonneg_finite_cases a Fa Na) as [[sa ->] | [ma [ea ->]]];
  destruct (nonneg_finite_cases b Fb Nb) as [[sb ->] | [mb [eb ->]]];
  simpl; try reflexivity.
  apply has_sign_nonneg, binary_round_aux_sign; lia.
Qed.

Lemma div_core_nonneg prec emax m1 e1 m2 e2 :
  0 <= fst (fst (SFdiv_core_binary prec emax (Zpos m1) e1 (Zpos m2) e2)).
Proof.
  unfold SFdiv_core_binary.
  set (s := _ - _ - _).
  set (m' := match s with Zpos _ => _ | Z0 => _ | Zneg _ => _ end).
  assert (Hm : 0 <= m').
  { subst m'; destruct s; try lia. apply Z.shiftl_nonneg; lia. }
  pose proof (Z_div_mod m' (Zpos m2) ltac:(lia)) as Hd.
  destruct (Z.div_eucl m' (Zpos m2)) as [q r]; simpl.
  destruct Hd as [Hq Hr]. nia.
Qed.

(** Dividing a non-negative value by a finite positive one keeps it
    non-negative. *)
Lemma div_nonneg prec emax a m e :
  nonneg a = true -> nonneg (SFdiv prec emax a (S754_finite false m e)) = true.
Proof.
  intros Na.
  destruct a as [s | [ | ] | | [ | ] ma ea]; simpl in *; try easy.
  pose proof (div_core_nonneg prec emax ma ea m e) as H.
  destruct (SFdiv_core_binary prec emax (Zpos ma) ea (Zpos m) e) as [[q e'] l].
  apply has_sign_nonneg, binary_round_aux_sign; exact H.
Qed.

End IEEEFacts.

(* ================================================================== *)
(** * Rounding a positive integer *)
(* ================================================================== *)

Module RoundingFacts.

Lemma digits2_pos_lower p : 2 ^ (Zpos (digits2_pos p) - 1) <= Zpos p.
Proof.
  induction p as [p IH | p IH | ]; simpl digits2_pos.
  - rewrite Pos2Z.inj_succ.
    replace (Z.succ (Zpos (digits2_pos p)) - 1)
      with (Z.succ (Zpos (digits2_pos p) - 1)) by lia.
    rewrite Z.pow_succ_r by lia. lia.
  - rewrite Pos2Z.inj_succ.
    replace (Z.succ (Zpos (digits2_pos p)) - 1)
      with (Z.succ (Zpos (digits2_pos p) - 1)) by lia.
    rewrite Z.pow_succ_r by lia. lia.
  - simpl. lia.
Qed.

Lemma shr_1_halves mrs : 0 <= shr_m mrs -> shr_m (shr_1 mrs) = shr_m mrs / 2.
Proof.
  destruct mrs as [m r s]; simpl.
  destruct m as [ | [p | p | ] | p]; cbn [shr_m]; intros H; try lia;
    try reflexivity.
  - apply Z.div_unique with (r := 1); lia.
  - apply Z.div_unique with (r := 0); lia.
Qed.

Lemma iter_shr_1_divides n mrs :
  0 <= shr_m mrs ->
  shr_m (iter_pos shr_1 n mrs) = shr_m mrs / 2 ^ Zpos n.
Proof.
  revert mrs. induction n as [n IH | n IH | ]; intros mrs H; simpl iter_pos.
  - assert (H1 : 0 <= shr_m (shr_1 mrs)) by (apply IEEEFacts.shr_1_nonneg, H).
    assert (H2 : 0 <= shr_m (iter_pos shr_1 n (shr_1 mrs))).
    { rewrite IH by exact H1. apply Z.div_pos; lia. }
    assert (Hp : 2 ^ Zpos n~1 = 2 * (2 ^ Zpos n * 2 ^ Zpos n)).
    { rewrite <- Z.pow_add_r, <- Z.pow_succ_r by lia. f_equal. lia. }
    rewrite IH by exact H2. rewrite IH by exact H1.
    rewrite shr_1_halves by exact H.
    rewrite !Z.div_div by lia. rewrite Hp. reflexivity.
  - assert (H2 : 0 <= shr_m (iter_pos shr_1 n mrs)).
    { rewrite IH by exact H. apply Z.div_pos; lia. }
    assert (Hp : 2 ^ Zpos n~0 = 2 ^ Zpos n * 2 ^ Zpos n).
    { rewrite <- Z.pow_add_r by lia. f_equal. lia. }
    rewrite IH by exact H2. rewrite IH by exact H.
    rewrite Z.div_div by lia. rewrite Hp. reflexivity.
  - rewrite shr_1_halves by exact H. reflexivity.
Qed.

(** Above the smallest exponent of the format, the shift that brings a
    positive mantissa to the precision leaves it positive. *)
Lemma shr_fexp_positive prec emax m e l :
  0 < prec -> 0 < m -> 3 - emax - prec <= e ->
  0 < shr_m (fst (shr_fexp prec emax m e l))
  /\ e <= snd (shr_fexp prec emax m e l).
Proof.
  intros Hprec Hm He. unfold shr_fexp, shr.
  assert (Hrec : shr_m (shr_record_of_loc m l) = m)
    by (destruct l as [ | [ | | ]]; reflexivity).
  destruct m as [ | p | p]; try lia.
  set (n := fexp prec emax (Zdigits2 (Zpos p) + e) - e).
  assert (Hn : n <= Zpos (digits2_pos p) - 1).
  { subst n. unfold fexp, emin. simpl Zdigits2. lia. }
  destruct n as [ | k | k]; simpl; try (rewrite Hrec; lia).
  rewrite iter_shr_1_divides by (rewrite Hrec; lia).
  rewrite Hrec. split; [ | lia].
  pose proof (digits2_pos_lower p) as Hd.
  assert (Hk : 2 ^ Zpos k <= 2 ^ (Zpos (digits2_pos p) - 1))
    by (apply Z.pow_le_mono_r; lia).
  apply Z.div_str_pos. lia.
Qed.

Lemma round_nearest_even_grows m l : m <= round_nearest_even m l.
Proof.
  unfold round_nearest_even.
  destruct l as [ | [ | | ]]; try destruct (Z.even m); lia.
Qed.

(** Rounding a positive mantissa whose exponent is not below the smallest
    one of the format gives a finite number or an infinity of the sign
    asked for, never a zero. *)
Lemma binary_round_aux_positive prec emax sx mx ex lx :
  0 < prec -> 0 < mx -> 3 - emax - prec <= ex ->
  match binary_round_aux prec emax sx mx ex lx with
  | S754_finite s _ _ | S754_infinity s => s = sx
  | _ => False
  end.
Proof.
  intros Hprec Hm He. unfold binary_round_aux.
  destruct (shr_fexp_positive prec emax mx ex lx Hprec Hm He) as [H1 H1e].
  destruct (shr_fexp prec emax mx ex lx) as [mrs' e']; simpl in H1, H1e.
  pose proof (round_nearest_even_grows (shr_m mrs') (loc_of_shr_record mrs'))
    as Hr.
  destruct (shr_fexp_positive prec emax
              (round_nearest_even (shr_m mrs') (loc_of_shr_record mrs'))
              e' loc_Exact Hprec ltac:(lia) ltac:(lia)) as [H2 _].
  destruct (shr_fexp prec emax _ e' loc_Exact) as [mrs'' e'']; simpl in H2.
  destruct (shr_m mrs'') as [ | m | m]; try lia.
  destruct (e'' <=? emax - prec); reflexivity.
Qed.

(** The [float] of a positive integer is a positive number or [+Inf]. *)
Lemma of_Z_positive z :
  0 < z ->
  match F32.of_Z z with
  | S754_finite s _ _ | S754_infinity s => s = false
  | _ => False
  end.
Proof.
  intros Hz. unfold F32.of_Z, binary_normalize.
  destruct z as [ | p | p]; try lia.
  unfold binary_round, shl_align.
  set (ex' := fexp F32.prec F32.emax (Zpos (digits2_pos p) + 0)).
  assert (Hex' : 3 - F32.emax - F32.prec <= ex')
    by (subst ex'; unfold fexp, emin; lia).
  destruct (ex' - 0) as [ | d | d] eqn:E;
    apply binary_round_aux_positive;
    unfold F32.prec, F32.emax in *; lia.
Qed.

(** [+0] divided by the [float] of a positive count is [+0]. *)
Lemma zero_div_count (n : N) :
  (0 < n)%N -> F32.div F32.zero (F32.of_N n) = F32.zero.
Proof.
  intros Hn. unfold F32.of_N.
  pose proof (of_Z_positive (Z.of_N n) ltac:(lia)) as H.
  destruct (F32.of_Z (Z.of_N n)) as [s | s | | s m e]; try contradiction;
    subst s; reflexivity.
Qed.

End RoundingFacts.

(* ================================================================== *)
(** * The power heuristic in binary64 *)
(* ================================================================== *)

Module UnitIntervalFacts.
Import Magnitude.

Lemma digits2_pos_upper p : Zpos p < 2 ^ Zpos (digits2_pos p).
Proof.
  induction p as [p IH | p IH | ]; simpl digits2_pos;
    try (rewrite Pos2Z.inj_succ, Z.pow_succ_r by lia; lia).
  reflexivity.
Qed.

Lemma Zdigits2_bounds m :
  0 < m -> 0 < Zdigits2 m /\ 2 ^ (Zdigits2 m - 1) <= m < 2 ^ Zdigits2 m.
Proof.
  destruct m as [ | p | p]; try lia. intros _. simpl.
  split; [lia | split].
  - apply RoundingFacts.digits2_pos_lower.
  - apply digits2_pos_upper.
Qed.

Lemma Zdigits2_nonneg m : 0 <= Zdigits2 m.
Proof. destruct m; simpl; lia. Qed.


Lemma Zdigits2_above m k : 0 <= k -> 2 ^ k <= m -> k < Zdigits2 m.
Proof.
  intros Hk Hm. assert (Hpos : 0 < m) by (pose proof (Z.pow_pos_nonneg 2 k); lia).
  destruct (Zdigits2_bounds m Hpos) as [Hd [_ Hu]].
  assert (H : 2 ^ k < 2 ^ Zdigits2 m) by lia.
  apply Z.pow_lt_mono_r_iff in H; lia.
Qed.

(** ** Rounding a number of at most 1 *)












(** ** Rounding a sum *)












(** ** The weight *)



End UnitIntervalFacts.

(* ================================================================== *)
(** * Properties of the path tracer *)
(* ================================================================== *)

Module PathTracerFacts.
Import PathTracer.

(** Case analysis on the innermost scrutinee first. *)
Ltac split_branches :=
  repeat match goal with
  | |- context [match ?x with _ => _ end] =>
      lazymatch x with
      | context [match _ with _ => _ end] => fail
      | _ => destruct x eqn:?
      end
  end.

Section Facts.
Context {ent : Entities} {col : Collaborators} {par : Parameters}.

(** ** The end of the loop body *)

Lemma next_bounce_cases st incoming :
  next_bounce st incoming = Break st
  \/ (next_bounce st incoming = Break (log st (WarnHardLimit (path_length st)))
      /\ (HardPathLengthLimit <= path_length st)%N)
  \/ ((path_length st < HardPathLengthLimit)%N
      /\ (m_max_path_length = 0 \/ path_length st < m_max_path_length)%N
      /\ exists sp' e,
           next_bounce st incoming =
           Next (mkPathState sp' (throughput st) (path_length st + 1)%N
                   (bsdf_mode st) (bsdf_prob st) (sampling_context st)
                   (m_path_visitor st) (CallIntersect e :: events st))).
Proof.
  unfold next_bounce.
  destruct (0 <? m_max_path_length)%N eqn:H0;
  destruct (m_max_path_length <=? path_length st)%N eqn:H1; simpl; auto;
  destruct (HardPathLengthLimit <=? path_length st)%N eqn:H2; simpl; auto;
  try (right; left; split; [reflexivity | apply N.leb_le; exact H2]).
  all: right; right; apply N.leb_gt in H2.
  all: assert (Hi : size_t_incr (path_length st) = (path_length st + 1)%N)
    by (unfold size_t_incr, size_t_modulus; apply N.mod_small;
        unfold HardPathLengthLimit in H2; lia).
  all: rewrite Hi; split; [exact H2 | split].
  all: try (eexists; eexists; reflexivity).
  - right. apply N.leb_gt; exact H1.
  - left. apply N.ltb_ge in H0. lia.
  - left. apply N.ltb_ge in H0. lia.
Qed.

Lemma next_bounce_throughput st incoming :
  throughput (outcome_state (next_bounce st incoming)) = throughput st.
Proof.
  destruct (next_bounce_cases st incoming)
    as [E | [[E _] | [_ [_ [sp' [e E]]]]]]; rewrite E; reflexivity.
Qed.


(** What one iteration can do to the path length and to the calls made. *)
Lemma iteration_summary st :
  match iteration st with
  | Break st' =>
      path_length st' = path_length st
      /\ (vertex_visits st' + environment_visits st'
          <= vertex_visits st + environment_visits st + 1)%nat
  | Retry st' =>
      hit (shading_point_ptr st) = true
      /\ st' = retried st (sampling_context st')
  | Next st' =>
      (path_length st < HardPathLengthLimit)%N
      /\ (m_max_path_length = 0 \/ path_length st < m_max_path_length)%N
      /\ path_length st' = (path_length st + 1)%N
  end.
Proof.
  unfold iteration, shade, scatter, retried.
  split_branches.
  all: try match goal with
    | H : next_bounce ?s ?i = _ |- _ =>
        destruct (next_bounce_cases s i) as [E | [[E _] | [L [G [sp' [e E]]]]]];
        rewrite E in H; inversion H; subst; clear H E
    end.
  all: unfold vertex_visits, environment_visits in *; simpl in *.
  all: try (repeat split; try reflexivity; try assumption; try lia).
  destruct (hit (shading_point_ptr st)); simpl in *; congruence.
Qed.

Lemma shade_never_retries st material st' : shade st material <> Retry st'.
Proof.
  unfold shade, scatter. split_branches; try discriminate.
  all: match goal with
    | |- next_bounce ?s ?i <> _ =>
        destruct (next_bounce_cases s i) as [E | [[E _] | [_ [_ [sp' [e E]]]]]];
        rewrite E; discriminate
    end.
Qed.


(** What a [break] has done: on a miss it has invoked the environment
    callback, on a hit it has invoked the per-vertex callback when the
    point can be shaded, and nothing else. *)
Lemma break_callbacks st st' :
  iteration st = Break st' ->
  shading_point_ptr st' = shading_point_ptr st
  /\ environment_visits st'
     = (if hit (shading_point_ptr st) then environment_visits st
        else S (environment_visits st))
  /\ vertex_visits st'
     = (if hit (shading_point_ptr st) && shadeable (shading_point_ptr st)
        then S (vertex_visits st) else vertex_visits st).
Proof.
  unfold iteration, shade, scatter, shadeable.
  split_branches; intros H.
  all: try match goal with
    | Hc : _ = _ |- _ => simpl in Hc; discriminate Hc
    end.
  all: try match type of H with
    | next_bounce ?s ?i = _ =>
        destruct (next_bounce_cases s i) as [E | [[E _] | [_ [_ [sp' [e E]]]]]];
        rewrite E in H
    end.
  all: try discriminate H.
  all: inversion H; subst; clear H.
  all: unfold vertex_visits, environment_visits; simpl.
  all: repeat match goal with
    | H : hit _ = _ |- _ => rewrite H
    | H : negb (hit _) = _ |- _ =>
        apply (f_equal negb) in H; rewrite negb_involutive in H; simpl in H
    end.
  all: simpl; repeat split; reflexivity.
Qed.

(** ** Bounded walks *)

Lemma vertex_visits_retried st sc :
  vertex_visits (retried st sc) = vertex_visits st
  /\ environment_visits (retried st sc) = environment_visits st
  /\ path_length (retried st sc) = path_length st.
Proof. repeat split. Qed.

(** With the user bound at 1 the loop never reaches the end of its body:
    an iteration either breaks, after at most one callback, or retries
    through an alpha mask. *)
Lemma single_bounce_loop :
  m_max_path_length = 1%N ->
  forall fuel st, path_length st = 1%N ->
  path_length (result_state (trace_loop fuel st)) = 1%N
  /\ (vertex_visits (result_state (trace_loop fuel st))
      + environment_visits (result_state (trace_loop fuel st))
      <= vertex_visits st + environment_visits st + 1)%nat.
Proof.
  intros Hmax fuel; induction fuel as [ | fuel IH]; intros st Hpl; simpl.
  - split; [exact Hpl | lia].
  - pose proof (iteration_summary st) as Hs.
    destruct (iteration st) as [st' | st' | st']; simpl.
    + destruct Hs as [H1 H2]; split; [congruence | exact H2].
    + destruct Hs as [_ ->].
      destruct (vertex_visits_retried st (sampling_context st')) as [V [E P]].
      rewrite <- V, <- E. apply IH. rewrite P; exact Hpl.
    + destruct Hs as [_ [[H | H] _]]; rewrite Hmax in H; [discriminate | lia].
Qed.

(** The hard ceiling: the path length never passes it. *)
Lemma no_bounce_at_ceiling st st' :
  iteration st = Next st' -> (path_length st < HardPathLengthLimit)%N.
Proof.
  intros H; pose proof (iteration_summary st) as Hs; rewrite H in Hs.
  apply Hs.
Qed.

(** Termination by the lexicographic measure (bounces left, surfaces left
    on the continuation ray). *)
Lemma loop_terminates (layers : ShadingPoint -> nat) (K : nat) :
  (forall sp, (layers sp <= K)%nat) ->
  (forall sp, hit sp = true ->
     (layers (intersector_trace (cutoff_ray sp) (Some sp)) < layers sp)%nat) ->
  forall fuel st,
    (path_length st <= HardPathLengthLimit)%N ->
    ((HardPathLengthLimit - path_length st) * (N.of_nat K + 1)
     + N.of_nat (layers (shading_point_ptr st)) < N.of_nat fuel)%N ->
    exists st', trace_loop fuel st = Finished st'
                /\ (path_length st' <= HardPathLengthLimit)%N.
Proof.
  intros Hk Hdec fuel; induction fuel as [ | fuel IH]; intros st Hpl Hm.
  - exfalso; exact (N.nlt_0_r _ Hm).
  - simpl. pose proof (iteration_summary st) as Hs.
    destruct (iteration st) as [st' | st' | st'].
    + exists st'; split; [reflexivity | ]. destruct Hs as [-> _]; exact Hpl.
    + destruct Hs as [Hhit Hst]. apply IH.
      * rewrite Hst; exact Hpl.
      * rewrite Hst; unfold retried; cbn [path_length shading_point_ptr].
        specialize (Hdec _ Hhit).
        set (a := ((HardPathLengthLimit - path_length st)
                   * (N.of_nat K + 1))%N) in *.
        lia.
    + destruct Hs as [Hlt [_ Hnext]]. apply IH.
      * lia.
      * rewrite Hnext.
        pose proof (Hk (shading_point_ptr st')) as Hk'.
        set (b := (N.of_nat K + 1)%N) in *.
        replace (HardPathLengthLimit - path_length st)%N
          with ((HardPathLengthLimit - (path_length st + 1)) + 1)%N in Hm by lia.
        rewrite N.mul_add_distr_r, N.mul_1_l in Hm.
        subst b. lia.
Qed.

(** With the user bound at 1 the loop returns as soon as the alpha-mask
    retries run out, on a [break] of the iteration that ends them. *)
Lemma single_bounce_returns (layers : ShadingPoint -> nat) :
  m_max_path_length = 1%N ->
  (forall sp, hit sp = true ->
     (layers (intersector_trace (cutoff_ray sp) (Some sp)) < layers sp)%nat) ->
  forall fuel st,
    path_length st = 1%N ->
    (layers (shading_point_ptr st) < fuel)%nat ->
    exists st',
      trace_loop fuel st = Finished st'
      /\ path_length st' = 1%N
      /\ environment_visits st'
         = (if hit (shading_point_ptr st') then environment_visits st
            else S (environment_visits st))
      /\ vertex_visits st'
         = (if hit (shading_point_ptr st') && shadeable (shading_point_ptr st')
            then S (vertex_visits st) else vertex_visits st).
Proof.
  intros Hmax Hdec fuel; induction fuel as [ | fuel IH]; intros st Hpl Hm.
  - lia.
  - simpl. pose proof (iteration_summary st) as Hs.
    destruct (iteration st) as [st' | st' | st'] eqn:Hit.
    + exists st'. destruct Hs as [H1 _].
      destruct (break_callbacks st st' Hit) as [Hsp [He Hv]].
      rewrite Hsp.
      split; [reflexivity | split; [congruence | split; assumption]].
    + destruct Hs as [Hhit Hst].
      destruct (vertex_visits_retried st (sampling_context st')) as [V [E P]].
      rewrite <- V, <- E, <- Hst.
      apply IH.
      * rewrite Hst, P. exact Hpl.
      * rewrite Hst. unfold retried. cbn [shading_point_ptr].
        specialize (Hdec _ Hhit). lia.
    + destruct Hs as [_ [[H | H] _]]; rewrite Hmax in H; [discriminate | lia].
Qed.

End Facts.

(** ** The claims on the walk *)

Section Claims.
Context {ent : Entities} {col : Collaborators}.

(** C9, amended.  With [max_path_length = 1] and Russian roulette disabled
    ([rr_min_path_length = 0]) a walk, started from a shading point or from
    a ray and observed after any number of iterations, is still at path
    length 1 and has invoked the per-vertex and the environment callbacks
    at most once in total, so a vertex is never followed by a second
    bounce.  When the alpha-mask retries are finite (the continuation ray
    of a hit point always meets fewer surfaces, [layers], at most [K], than
    the ray that reached it) the walk returns, within [K + 1] iterations,
    at path length 1, in one of two ways.  Either the ray escaped: the
    walk ends on a miss, the environment callback invoked exactly once and
    the per-vertex callback never.  Or the walk ends on a surface, the
    environment callback never invoked and the per-vertex callback invoked
    exactly once if the surface has a material with a surface shader and a
    BSDF, and never otherwise. *)
Theorem single_vertex_walk (mask : Z) (adjoint : bool)
    (layers : ShadingPoint -> nat) (K : nat) :
  let par := {| ScatteringModesMask := mask; Adjoint := adjoint;
                m_rr_min_path_length := 0%N; m_max_path_length := 1%N |} in
  let bounded st :=
    path_length st = 1%N
    /\ (vertex_visits st <= 1)%nat
    /\ (vertex_visits st + environment_visits st <= 1)%nat in
  let returned r :=
    exists st,
      r = Finished st
      /\ path_length st = 1%N
      /\ (if hit (shading_point_ptr st)
          then environment_visits st = 0%nat
               /\ vertex_visits st
                  = (if shadeable (shading_point_ptr st) then 1 else 0)%nat
          else environment_visits st = 1%nat
               /\ vertex_visits st = 0%nat) in
  (forall fuel sc visitor sp ray parent,
     bounded (result_state (trace fuel sc visitor sp))
     /\ bounded (result_state (trace_ray fuel sc visitor ray parent)))
  /\ ((forall sp, (layers sp <= K)%nat) ->
      (forall sp, hit sp = true ->
         (layers (intersector_trace (cutoff_ray sp) (Some sp))
          < layers sp)%nat) ->
      forall fuel sc visitor,
        (K < fuel)%nat ->
        (forall sp, returned (trace fuel sc visitor sp))
        /\ (forall ray parent,
              returned (trace_ray fuel sc visitor ray parent))).
Proof.
  intros par bounded returned. split.
  - intros fuel sc visitor sp ray parent.
    assert (H : forall p, bounded (result_state (trace fuel sc visitor p))).
    { intros p.
      destruct (@single_bounce_loop ent col par eq_refl fuel
                  (initial_state sc visitor p) eq_refl) as [H1 H2].
      fold (trace fuel sc visitor p) in H1, H2.
      unfold vertex_visits at 2, environment_visits at 2 in H2; simpl in H2.
      split; [exact H1 | split; lia]. }
    split; [apply H | apply (H (intersector_trace ray parent))].
  - intros Hk Hdec fuel sc visitor Hfuel.
    assert (H : forall p, returned (trace fuel sc visitor p)).
    { intros p.
      destruct (@single_bounce_returns ent col par layers eq_refl Hdec fuel
                  (initial_state sc visitor p) eq_refl) as [st [E [P [He Hv]]]].
      - cbn [initial_state shading_point_ptr]. pose proof (Hk p). lia.
      - exists st. split; [exact E | split; [exact P | ]].
        unfold vertex_visits at 2 in Hv.
        unfold environment_visits at 2 3 in He.
        cbn [initial_state events filter length] in He, Hv.
        destruct (hit (shading_point_ptr st)); cbn [andb] in Hv;
          split; assumption. }
    split; [exact H | intros ray parent; apply H].
Qed.

End Claims.

Section Rules.
Context {ent : Entities} {col : Collaborators} {par : Parameters}.

(** C2, amended.  The hard ceiling bounds the bounces, not the iterations:
    a bounce is taken only below 10,000, and the walk returns, with a path
    length of at most 10,000, as soon as the alpha-mask retries are finite,
    that is, when the continuation ray of a hit point always meets fewer
    surfaces ([layers], at most [K]) than the ray that reached it.  Fuel
    [10,000 * (K + 1)] is enough. *)
Theorem walk_terminates_when_retries_are_finite
    (layers : ShadingPoint -> nat) (K : nat) :
  (forall sp, (layers sp <= K)%nat) ->
  (forall sp, hit sp = true ->
     (layers (intersector_trace (cutoff_ray sp) (Some sp)) < layers sp)%nat) ->
  (forall st st', iteration st = Next st' ->
     (path_length st < HardPathLengthLimit)%N)
  /\ forall fuel sc visitor,
       (HardPathLengthLimit * (N.of_nat K + 1) <= N.of_nat fuel)%N ->
       (forall sp,
          exists st, trace fuel sc visitor sp = Finished st
                     /\ (path_length st <= HardPathLengthLimit)%N)
       /\ (forall ray parent,
             exists st, trace_ray fuel sc visitor ray parent = Finished st
                        /\ (path_length st <= HardPathLengthLimit)%N).
Proof.
  intros Hk Hdec; split; [exact no_bounce_at_ceiling | ].
  intros fuel sc visitor Hfuel.
  assert (H : forall sp,
            exists st, trace fuel sc visitor sp = Finished st
                       /\ (path_length st <= HardPathLengthLimit)%N).
  { intros sp. apply (loop_terminates layers K Hk Hdec).
    - simpl. unfold HardPathLengthLimit. lia.
    - cbn [initial_state path_length shading_point_ptr].
      pose proof (Hk sp) as Hsp. unfold HardPathLengthLimit in *.
      lia. }
  split; [exact H | intros ray parent; apply H].
Qed.

(** C4.  At a shading point with a material and a surface shader, whose
    alpha mask evaluates to [alpha]:
    - if [alpha == 1] the iteration goes on to the BSDF without drawing a
      sample, and does not end in the retry branch;
    - if [alpha == 0] and the sample drawn is in [0,1), the iteration
      re-traces the ray that leaves the point in the direction of the
      incoming ray, with the path length, the throughput, the visitor and
      its callbacks untouched;
    - if [alpha < 1], the retry is taken exactly when the sample is
      [>= alpha]. *)
Theorem alpha_mask_rule (st : PathState) (material : Material)
    (shader : SurfaceShader) (alpha : float) (sc1 : SamplingContext) :
  let sp := shading_point_ptr st in
  hit sp = true ->
  get_material sp = Some material ->
  get_surface_shader material = Some shader ->
  evaluate_alpha_mask shader (sampling_context st) sp = (alpha, sc1) ->
  let a := to_double alpha in
  let s := fst (next_double2 (split_in_place 1 1 sc1)) in
  let sc2 := snd (next_double2 (split_in_place 1 1 sc1)) in
  (F64.eqb a F64.one = true ->
     iteration st = shade (set_sampling_context st sc1) material
     /\ forall st', iteration st <> Retry st')
  /\ (F64.eqb a F64.zero = true -> nonneg s = true ->
        iteration st = Retry (retried st sc2))
  /\ (F64.ltb a F64.one = true ->
        (F64.geb s a = true -> iteration st = Retry (retried st sc2))
        /\ (F64.geb s a = false ->
              iteration st = shade (set_sampling_context st sc2) material
              /\ forall st', iteration st <> Retry st'))
  /\ m_org (cutoff_ray sp) = get_point sp
  /\ m_dir (cutoff_ray sp) = m_dir (get_ray sp)
  /\ vertex_visits (retried st sc2) = vertex_visits st
  /\ path_length (retried st sc2) = path_length st.
Proof.
  intros sp Hhit Hmat Hsh Halpha a s sc2.
  assert (Hit : iteration st =
                if F64.ltb a F64.one then
                  if F64.geb s a then Retry (retried st sc2)
                  else shade (set_sampling_context st sc2) material
                else shade (set_sampling_context st sc1) material).
  { unfold iteration. fold sp. rewrite Hhit, Hmat, Hsh, Halpha. simpl.
    fold a. subst s sc2.
    destruct (next_double2 (split_in_place 1 1 sc1)) as [s' sc']; simpl.
    reflexivity. }
  assert (Hone : F64.eqb a F64.one = true -> F64.ltb a F64.one = false).
  { unfold F64.eqb, F64.ltb, SFeqb, SFltb.
    destruct (SFcompare a F64.one) as [[ | | ] | ]; congruence. }
  split; [ | split; [ | split; [ | repeat split]]].
  - intros Heq. rewrite Hit, (Hone Heq).
    split; [reflexivity | intros st'; apply shade_never_retries].
  - intros Hz Hs. rewrite Hit.
    assert (Ez : exists b, a = S754_zero b).
    { revert Hz; unfold F64.eqb, SFeqb.
      destruct a as [b | [ | ] | | [ | ] m e]; simpl; try discriminate; eauto. }
    destruct Ez as [b Ea]. rewrite Ea.
    change (F64.ltb (S754_zero b) F64.one) with true.
    assert (Eg : F64.geb s (S754_zero b) = true).
    { revert Hs; unfold nonneg, F64.geb, SFleb.
      destruct s as [bs | [ | ] | | [ | ] m e]; simpl; auto. }
    rewrite Eg; reflexivity.
  - intros Hlt; split; intros Hg; rewrite Hit, Hlt, Hg.
    + reflexivity.
    + split; [reflexivity | intros st'; apply shade_never_retries].
Qed.


(** The two ways through lines 259-276. *)
Lemma scatter_with_roulette (st : PathState) (smp : BSDFSample) :
  Z.land (smp_mode smp) ScatteringModesMask <> 0 ->
  (0 < m_rr_min_path_length /\ m_rr_min_path_length <= path_length st)%N ->
  let bsdf_value := divide_by_prob (smp_value smp) (smp_prob smp) in
  let updated := SpectrumOps.mul (throughput st) bsdf_value in
  let s := fst (next_double2 (split_in_place 1 1 (sampling_context st))) in
  let sc := snd (next_double2 (split_in_place 1 1 (sampling_context st))) in
  let scattering_prob := F64.min (to_double (max_value bsdf_value)) F64.one in
  let sampled :=
    set_throughput (set_sample_outputs st (smp_mode smp) (smp_prob smp))
      updated in
  scatter st smp =
  if F64.ltb s scattering_prob
  then next_bounce
         (set_throughput (set_sampling_context sampled sc)
            (SpectrumOps.div updated (to_float scattering_prob)))
         (smp_incoming smp)
  else Break (set_sampling_context sampled sc).
Proof.
  intros Hmode [H1 H2]. cbv zeta.
  apply Z.eqb_neq in Hmode. apply N.ltb_lt in H1. apply N.leb_le in H2.
  unfold scatter, pass_rr. rewrite Hmode.
  cbn [path_length set_throughput set_sample_outputs throughput
       sampling_context].
  rewrite H1, H2. cbn [andb].
  destruct (next_double2 (split_in_place 1 1 (sampling_context st)))
    as [s sc]. cbn [fst snd].
  destruct (F64.ltb s _); reflexivity.
Qed.

Lemma scatter_without_roulette (st : PathState) (smp : BSDFSample) :
  Z.land (smp_mode smp) ScatteringModesMask <> 0 ->
  ~ (0 < m_rr_min_path_length /\ m_rr_min_path_length <= path_length st)%N ->
  scatter st smp =
  next_bounce
    (set_throughput (set_sample_outputs st (smp_mode smp) (smp_prob smp))
       (SpectrumOps.mul (throughput st)
          (divide_by_prob (smp_value smp) (smp_prob smp))))
    (smp_incoming smp).
Proof.
  intros Hmode Hn. apply Z.eqb_neq in Hmode.
  unfold scatter. rewrite Hmode.
  cbn [path_length set_throughput set_sample_outputs throughput
       sampling_context].
  destruct (0 <? m_rr_min_path_length)%N eqn:H1;
  destruct (m_rr_min_path_length <=? path_length st)%N eqn:H2;
  try reflexivity.
  exfalso; apply Hn; split; [apply N.ltb_lt | apply N.leb_le]; assumption.
Qed.


(** ** Sign of the throughput *)

Lemma Forall_map2 (P Q R : float -> Prop) (f : float -> float -> float) :
  (forall x y, P x -> Q y -> R (f x y)) ->
  forall a b, Forall P a -> Forall Q b -> Forall R (map2 f a b).
Proof.
  intros Hf a; induction a as [ | x a IH]; intros b Ha Hb; simpl.
  - constructor.
  - destruct b as [ | y b]; [constructor | ].
    inversion Ha; inversion Hb; subst.
    constructor; [apply Hf; assumption | apply IH; assumption].
Qed.

Lemma finite_nonneg_split x :
  finite_nonneg x = true -> is_finite x = true /\ nonneg x = true.
Proof. unfold finite_nonneg; apply andb_prop. Qed.

Lemma finite_pos_shape x :
  finite_pos x = true -> exists m e, x = S754_finite false m e.
Proof.
  unfold finite_pos.
  destruct x as [b | b | | [ | ] m e]; simpl; try discriminate; eauto.
Qed.

Lemma nonneg_not_nan x : nonneg x = true -> is_nan x = false.
Proof. destruct x; simpl; try reflexivity; discriminate. Qed.

(** C1, amended.  The walk has no guard on the throughput; what one bounce
    keeps is the sign.  If before the bounce every component of the
    throughput is finite and non-negative, every component of the sampled
    value, once divided by its probability, is finite and non-negative, and
    the Russian-roulette probability of a path that survives it is a
    positive finite [float] (the source asserts [scattering_prob > 0]), then
    after
    the bounce no component of the throughput is a NaN or negative; a
    component may be [+Inf], by overflow of the binary32 product. *)
Theorem throughput_keeps_its_sign (st : PathState) (smp : BSDFSample) :
  let bsdf_value := divide_by_prob (smp_value smp) (smp_prob smp) in
  let s := fst (next_double2 (split_in_place 1 1 (sampling_context st))) in
  let scattering_prob := F64.min (to_double (max_value bsdf_value)) F64.one in
  Forall (fun x => finite_nonneg x = true) (throughput st) ->
  Forall (fun x => finite_nonneg x = true) bsdf_value ->
  ((0 < m_rr_min_path_length /\ m_rr_min_path_length <= path_length st)%N ->
   pass_rr scattering_prob s = true ->
   finite_pos (to_float scattering_prob) = true) ->
  Forall (fun x => is_nan x = false /\ nonneg x = true)
    (throughput (outcome_state (scatter st smp))).
Proof.
  intros bsdf_value s scattering_prob Ht Hv Hp.
  assert (Hold : Forall (fun x => is_nan x = false /\ nonneg x = true)
                   (throughput st)).
  { eapply Forall_impl; [ | exact Ht]. intros x Hx.
    apply finite_nonneg_split in Hx. destruct Hx as [_ Hx].
    split; [apply nonneg_not_nan | ]; exact Hx. }
  assert (Hup : Forall (fun x => nonneg x = true)
                  (SpectrumOps.mul (throughput st) bsdf_value)).
  { unfold SpectrumOps.mul.
    apply Forall_map2 with (P := fun x => finite_nonneg x = true)
                           (Q := fun x => finite_nonneg x = true);
      [ | exact Ht | exact Hv].
    intros x y Hx Hy. apply finite_nonneg_split in Hx, Hy.
    apply IEEEFacts.mul_nonneg; tauto. }
  unfold scatter. fold bsdf_value.
  destruct (Z.land (smp_mode smp) ScatteringModesMask =? 0); [exact Hold | ].
  cbn [path_length set_throughput set_sample_outputs throughput
       sampling_context].
  destruct ((0 <? m_rr_min_path_length)
            && (m_rr_min_path_length <=? path_length st))%N eqn:Hrr.
  - apply andb_prop in Hrr. destruct Hrr as [Hrr1 Hrr2].
    apply N.ltb_lt in Hrr1. apply N.leb_le in Hrr2.
    specialize (Hp (conj Hrr1 Hrr2)).
    fold s scattering_prob in Hp |- *.
    destruct (next_double2 (split_in_place 1 1 (sampling_context st)))
      as [s' sc'] eqn:Hd. simpl in s. subst s.
    fold scattering_prob.
    destruct (pass_rr scattering_prob s') eqn:Hpass; cbn [negb].
    + rewrite next_bounce_throughput. cbn [throughput set_throughput].
      destruct (finite_pos_shape _ (Hp eq_refl)) as [m [e Hshape]].
      rewrite Hshape. unfold SpectrumOps.div. apply Forall_map.
      eapply Forall_impl; [ | exact Hup]. intros x Hx.
      assert (Hd' : nonneg (F32.div x (S754_finite false m e)) = true)
        by (apply IEEEFacts.div_nonneg; exact Hx).
      split; [apply nonneg_not_nan | ]; exact Hd'.
    + cbn [outcome_state throughput set_sampling_context set_throughput].
      eapply Forall_impl; [ | exact Hup]. intros x Hx.
      split; [apply nonneg_not_nan | ]; exact Hx.
  - rewrite next_bounce_throughput. cbn [throughput set_throughput].
    eapply Forall_impl; [ | exact Hup]. intros x Hx.
    split; [apply nonneg_not_nan | ]; exact Hx.
Qed.

(** The walk's half of C7: the throughput after an accepted sample is the
    throughput before it times the sampled value, taken as it is when the
    probability is the sentinel and divided by the probability otherwise
    (and then possibly divided by the Russian-roulette probability). *)
Lemma dirac_delta_disables_division (st : PathState) (smp : BSDFSample) :
  Z.land (smp_mode smp) ScatteringModesMask <> 0 ->
  let bsdf_value :=
    if F64.eqb (smp_prob smp) DiracDelta then smp_value smp
    else SpectrumOps.div (smp_value smp) (to_float (smp_prob smp)) in
  let updated := SpectrumOps.mul (throughput st) bsdf_value in
  let scattering_prob := F64.min (to_double (max_value bsdf_value)) F64.one in
  throughput (outcome_state (scatter st smp)) = updated
  \/ throughput (outcome_state (scatter st smp)) =
     SpectrumOps.div updated (to_float scattering_prob).
Proof.
  intros Hmode bsdf_value updated scattering_prob.
  assert (E : divide_by_prob (smp_value smp) (smp_prob smp) = bsdf_value).
  { subst bsdf_value. unfold divide_by_prob, F64.neqb, F64.eqb.
    destruct (SFeqb (smp_prob smp) DiracDelta); reflexivity. }
  destruct (N.lt_ge_cases 0 m_rr_min_path_length) as [H1 | H1];
  [destruct (N.le_gt_cases m_rr_min_path_length (path_length st))
     as [H2 | H2] | ].
  - pose proof (scatter_with_roulette st smp Hmode (conj H1 H2)) as Hon.
    cbv zeta in Hon. rewrite E in Hon. fold updated scattering_prob in Hon.
    rewrite Hon.
    destruct (F64.ltb _ scattering_prob).
    + right. rewrite next_bounce_throughput. reflexivity.
    + left. reflexivity.
  - left. rewrite (scatter_without_roulette st smp Hmode), E.
    + rewrite next_bounce_throughput. reflexivity.
    + intros [_ H]. lia.
  - left. rewrite (scatter_without_roulette st smp Hmode), E.
    + rewrite next_bounce_throughput. reflexivity.
    + intros [H _]. lia.
Qed.

End Rules.
End PathTracerFacts.

(* ================================================================== *)
(** * The walk on concrete scenes *)
(* ================================================================== *)

Module PathTracerExamples.
Import PathTracer PathTracerFacts Scenes.

(** C1, counterexample.  An opaque room whose BSDF returns an infinite
    value with a probability of 1e-30: the throughput shown to the visitor
    at the second vertex, and returned at the end of the walk, is [+Inf]. *)
Lemma infinite_bsdf_value_reaches_throughput :
  let final :=
    result_state
      (@trace_ray entities (opaque_room blow_up) (parameters 0 2) 3
         [] [] ray0 None) in
  path_length final = 2%N
  /\ throughput final = [S754_infinity false]
  /\ m_path_visitor final = [[S754_infinity false]; [F32.one]]
  /\ forallb finite_nonneg (throughput final) = false.
Proof. vm_compute. repeat split. Qed.

Lemma throughput_keeps_its_sign_witness :
  let st := on_surface (opaque_room grey) F32.one in
  Forall (fun x => finite_nonneg x = true) (throughput st)
  /\ Forall (fun x => finite_nonneg x = true)
       (@divide_by_prob entities (opaque_room grey) (smp_value grey)
          (smp_prob grey))
  /\ Forall (fun x => is_nan x = false /\ nonneg x = true)
       (throughput
          (outcome_state
             (@scatter entities (opaque_room grey) (parameters 1 0) st grey))).
Proof.
  intros st.
  assert (H1 : Forall (fun x => finite_nonneg x = true) (throughput st))
    by (repeat constructor).
  assert (H2 : Forall (fun x => finite_nonneg x = true)
                 (@divide_by_prob entities (opaque_room grey) (smp_value grey)
                    (smp_prob grey)))
    by (repeat constructor).
  split; [exact H1 | split; [exact H2 | ]].
  apply (@throughput_keeps_its_sign entities (opaque_room grey)
           (parameters 1 0) st grey H1 H2).
  intros _ _. vm_compute. reflexivity.
Defined.

(** C2, counterexample.  Where every continuation ray meets another fully
    transparent surface, no amount of fuel lets the walk return: each
    iteration retries, at path length 1. *)
Lemma transparent_stack_loops (fuel : nat) :
  forall st : @PathState entities,
    sampling_context st = [] ->
    (exists ray, shading_point_ptr st = surface F32.zero grey ray) ->
    exists st',
      @trace_loop entities transparent_stack (parameters 0 0) fuel st =
      OutOfFuel st'.
Proof.
  induction fuel as [ | fuel IH]; intros st Hsc [ray Hsp]; simpl.
  - eexists; reflexivity.
  - assert (E : exists st',
               @iteration entities transparent_stack (parameters 0 0) st =
               Retry st'
               /\ sampling_context st' = []
               /\ exists ray', shading_point_ptr st' = surface F32.zero grey ray').
    { unfold iteration. rewrite Hsp, Hsc. simpl.
      eexists; split; [reflexivity | split; [reflexivity | ]].
      eexists; reflexivity. }
    destruct E as [st' [-> [Hsc' Hsp']]]. apply IH; assumption.
Qed.

Lemma transparent_stack_never_returns :
  ~ exists fuel st,
      @trace_ray entities transparent_stack (parameters 0 0) fuel
        [] [] ray0 None = Finished st.
Proof.
  intros [fuel [st H]].
  destruct (transparent_stack_loops fuel
              (@initial_state entities transparent_stack [] []
                 (surface F32.zero grey ray0)) eq_refl
              (ex_intro _ ray0 eq_refl)) as [st' H'].
  unfold trace_ray, trace in H. simpl in H, H'. congruence.
Qed.

(** In an opaque room, with neither Russian roulette nor a user bound, the
    walk visits 10,000 vertices and stops at the ceiling with a warning. *)
Lemma hard_ceiling_is_reached :
  match
    @trace entities (opaque_room grey) (parameters 0 0) (N.to_nat 10000)
      [] [] (surface F32.one grey ray0)
  with
  | Finished st =>
      (path_length st =? 10000)%N
      && (N.of_nat (vertex_visits st) =? 10000)%N
      && match events st with
         | WarnHardLimit n :: _ => (n =? 10000)%N
         | _ => false
         end
  | OutOfFuel _ => false
  end = true.
Proof. vm_compute. reflexivity. Qed.

(** Whatever the parameters, a walk through coincident fully transparent
    surfaces retries at every iteration and invokes no callback. *)
Lemma transparent_stack_retries (par : Parameters) (fuel : nat) :
  forall st : @PathState entities,
    sampling_context st = [] ->
    (exists ray, shading_point_ptr st = surface F32.zero grey ray) ->
    exists st',
      @trace_loop entities transparent_stack par fuel st = OutOfFuel st'
      /\ vertex_visits st' = vertex_visits st
      /\ environment_visits st' = environment_visits st.
Proof.
  induction fuel as [ | fuel IH]; intros st Hsc [ray Hsp]; simpl.
  - eexists; repeat split.
  - assert (E : exists st',
               @iteration entities transparent_stack par st = Retry st'
               /\ sampling_context st' = []
               /\ (exists ray',
                     shading_point_ptr st' = surface F32.zero grey ray')
               /\ vertex_visits st' = vertex_visits st
               /\ environment_visits st' = environment_visits st).
    { unfold iteration. rewrite Hsp, Hsc. simpl.
      eexists; split; [reflexivity | split; [reflexivity | split]].
      - eexists; reflexivity.
      - split; reflexivity. }
    destruct E as [st' [-> [Hsc' [Hsp' [V E]]]]].
    destruct (IH st' Hsc' Hsp') as [st'' [L [V' E']]].
    exists st''. split; [exact L | split; congruence].
Qed.

(** C9, counterexample.  With [max_path_length = 1] and Russian roulette
    disabled, where every continuation ray meets another fully transparent
    surface the walk never returns, and it invokes neither callback: it
    neither escapes nor terminates. *)
Lemma single_vertex_walk_may_never_return :
  (~ exists fuel st,
       @trace entities transparent_stack (parameters 0 1) fuel [] []
         (surface F32.zero grey ray0) = Finished st)
  /\ (forall fuel,
        let st :=
          result_state
            (@trace entities transparent_stack (parameters 0 1) fuel [] []
               (surface F32.zero grey ray0)) in
        vertex_visits st = 0%nat /\ environment_visits st = 0%nat).
Proof.
  assert (H : forall fuel,
            exists st',
              @trace entities transparent_stack (parameters 0 1) fuel [] []
                (surface F32.zero grey ray0) = OutOfFuel st'
              /\ vertex_visits st' = 0%nat
              /\ environment_visits st' = 0%nat).
  { intros fuel.
    exact (transparent_stack_retries (parameters 0 1) fuel
             (@initial_state entities transparent_stack [] []
                (surface F32.zero grey ray0)) eq_refl
             (ex_intro _ ray0 eq_refl)). }
  split.
  - intros [fuel [st E]]. destruct (H fuel) as [st' [E' _]]. congruence.
  - intros fuel st. subst st. destruct (H fuel) as [st' [-> [V E]]].
    split; assumption.
Qed.

Lemma single_vertex_walk_witness :
  (forall sp, (cutout_layers sp <= 1)%nat)
  /\ (forall sp, hit sp = true ->
        (cutout_layers
           (@intersector_trace entities single_cutout
              (cutoff_ray sp) (Some sp)) < cutout_layers sp)%nat)
  /\ (exists st,
        @trace entities single_cutout (parameters 0 1) 2 [] []
          (surface F32.zero grey ray0) = Finished st
        /\ path_length st = 1%N
        /\ (if hit (shading_point_ptr st)
            then environment_visits st = 0%nat
                 /\ vertex_visits st
                    = (if shadeable (shading_point_ptr st) then 1 else 0)%nat
            else environment_visits st = 1%nat
                 /\ vertex_visits st = 0%nat))
  /\ (exists st,
        @trace entities single_cutout (parameters 0 1) 2 [] []
          (surface F32.zero grey ray0) = Finished st
        /\ hit (shading_point_ptr st) = false)
  /\ (exists st,
        @trace entities (opaque_room grey) (parameters 0 1) 1 [] []
          (surface F32.one grey ray0) = Finished st
        /\ vertex_visits st = 1%nat).
Proof.
  assert (H1 : forall sp, (cutout_layers sp <= 1)%nat)
    by (intros sp; unfold cutout_layers; destruct (hit sp); lia).
  assert (H2 : forall sp, hit sp = true ->
                 (cutout_layers
                    (@intersector_trace entities single_cutout
                       (cutoff_ray sp) (Some sp)) < cutout_layers sp)%nat)
    by (intros sp Hh; unfold cutout_layers; rewrite Hh; simpl; lia).
  split; [exact H1 | split; [exact H2 | split; [ | split]]].
  - exact (proj1 (proj2 (@single_vertex_walk entities single_cutout all_modes
                           false cutout_layers 1%nat) H1 H2 2%nat [] []
                    (le_n 2))
             (surface F32.zero grey ray0)).
  - eexists. split; vm_compute; reflexivity.
  - eexists. split; vm_compute; reflexivity.
Defined.

Lemma walk_terminates_witness :
  (forall sp, (cutout_layers sp <= 1)%nat)
  /\ (forall sp, hit sp = true ->
        (cutout_layers
           (@intersector_trace entities single_cutout
              (cutoff_ray sp) (Some sp)) < cutout_layers sp)%nat)
  /\ exists st,
       @trace entities single_cutout (parameters 0 0) (N.to_nat 20000)
         [] [] (surface F32.zero grey ray0) = Finished st
       /\ (path_length st <= HardPathLengthLimit)%N.
Proof.
  assert (H1 : forall sp, (cutout_layers sp <= 1)%nat)
    by (intros sp; unfold cutout_layers; destruct (hit sp); lia).
  assert (H2 : forall sp, hit sp = true ->
                 (cutout_layers
                    (@intersector_trace entities single_cutout
                       (cutoff_ray sp) (Some sp)) < cutout_layers sp)%nat)
    by (intros sp Hh; unfold cutout_layers; rewrite Hh; simpl; lia).
  split; [exact H1 | split; [exact H2 | ]].
  apply (proj2 (@walk_terminates_when_retries_are_finite entities
                  single_cutout (parameters 0 0) cutout_layers 1 H1 H2)
           (N.to_nat 20000) [] []).
  rewrite N2Nat.id. vm_compute. discriminate.
Defined.

Lemma alpha_mask_rule_witness :
  (forall st',
     @iteration entities (opaque_room grey) (parameters 0 0)
       (on_surface (opaque_room grey) F32.one) <> Retry st')
  /\ @iteration entities transparent_stack (parameters 0 0)
       (on_surface transparent_stack F32.zero) =
     Retry (@retried entities transparent_stack
              (on_surface transparent_stack F32.zero) [])
  /\ @iteration entities veil (parameters 0 0)
       (on_surface veil (to_float half)) =
     Retry (@retried entities veil (on_surface veil (to_float half)) []).
Proof.
  split; [ | split].
  - destruct (@alpha_mask_rule entities (opaque_room grey) (parameters 0 0)
                (on_surface (opaque_room grey) F32.one)
                (mkMaterial (ent := entities) (Some F32.one) (Some grey))
                F32.one F32.one [] eq_refl eq_refl eq_refl eq_refl)
      as [Hone _].
    exact (proj2 (Hone eq_refl)).
  - destruct (@alpha_mask_rule entities transparent_stack (parameters 0 0)
                (on_surface transparent_stack F32.zero)
                (mkMaterial (ent := entities) (Some F32.zero) (Some grey))
                F32.zero F32.zero [] eq_refl eq_refl eq_refl eq_refl)
      as [_ [Hzero _]].
    exact (Hzero eq_refl eq_refl).
  - destruct (@alpha_mask_rule entities veil (parameters 0 0)
                (on_surface veil (to_float half))
                (mkMaterial (ent := entities) (Some (to_float half))
                   (Some grey))
                (to_float half) (to_float half) [] eq_refl eq_refl eq_refl
                eq_refl)
      as [_ [_ [Hbetween _]]].
    exact (proj1 (Hbetween eq_refl) eq_refl).
Defined.


End PathTracerExamples.

(* ================================================================== *)
(** * Properties of image-based lighting *)
(* ================================================================== *)

Module ImageBasedLightingFacts.
Import ImageBasedLighting.

Section Facts.
Context {col : Collaborators}.

Lemma glossy_and_specular_are_not_diffuse :
  BSDFMode.Glossy <> BSDFMode.Diffuse /\ BSDFMode.Specular <> BSDFMode.Diffuse.
Proof. split; discriminate. Qed.

(** A loop whose body leaves a quantity alone leaves it alone. *)
Lemma iter_preserves (A B : Type) (f : A -> A) (g : A -> B) :
  (forall x, g (f x) = g x) -> forall n x, g (N.iter n f x) = g x.
Proof.
  intros Hf n x. apply N.iter_invariant; [ | reflexivity].
  intros y Hy. rewrite Hf. exact Hy.
Qed.

(** C8.  In the BSDF-sampling technique a sample whose mode is not
    diffuse (glossy and specular are such modes) is skipped: the iteration
    changes neither the accumulated radiance nor the list of calls, so no
    occlusion ray is traced and the environment is not evaluated; only the
    sampling context advances.  When the BSDF never answers in diffuse
    mode, the whole loop leaves the radiance and the calls as they were. *)
Theorem non_diffuse_samples_are_skipped (a : Inputs) (st : LoopState) :
  let drawn sc :=
    bsdf_sample (bsdf a) sc (bsdf_data a) false true (geometric_normal a)
      (shading_basis a) (outgoing a) in
  (smp_mode (fst (drawn (sampling_context st))) <> BSDFMode.Diffuse ->
     bsdf_sampling_iteration a st =
     mkLoopState (radiance st) (snd (drawn (sampling_context st))) (events st))
  /\ ((forall sc, smp_mode (fst (drawn sc)) <> BSDFMode.Diffuse) ->
        forall n,
          radiance (N.iter n (bsdf_sampling_iteration a) st) = radiance st
          /\ events (N.iter n (bsdf_sampling_iteration a) st) = events st).
Proof.
  intros drawn.
  assert (Hskip : forall st0,
            smp_mode (fst (drawn (sampling_context st0))) <> BSDFMode.Diffuse ->
            bsdf_sampling_iteration a st0 =
            mkLoopState (radiance st0) (snd (drawn (sampling_context st0)))
              (events st0)).
  { intros st0 Hm. unfold bsdf_sampling_iteration. subst drawn. simpl in *.
    destruct (bsdf_sample (bsdf a) (sampling_context st0) (bsdf_data a) false
                true (geometric_normal a) (shading_basis a) (outgoing a))
      as [smp sc]. simpl in *.
    apply Z.eqb_neq in Hm. rewrite Hm. reflexivity. }
  split; [apply Hskip | ].
  intros Hall n; split.
  - apply iter_preserves. intros x. rewrite (Hskip x (Hall _)). reflexivity.
  - apply iter_preserves. intros x. rewrite (Hskip x (Hall _)). reflexivity.
Qed.

(** The estimator's half of C7: for a diffuse, unoccluded sample the
    contribution added to the radiance carries the weight 1 when the
    sampled probability is the sentinel, and the power heuristic between
    [bsdf_sample_count * bsdf_prob] and [env_sample_count * env_prob]
    otherwise. *)
Lemma dirac_delta_disables_mis (a : Inputs) (st : LoopState) :
  let drawn :=
    bsdf_sample (bsdf a) (sampling_context st) (bsdf_data a) false true
      (geometric_normal a) (shading_basis a) (outgoing a) in
  let smp := fst drawn in
  let traced :=
    tracer_trace (snd drawn) (point a) (smp_incoming smp) (time a)
      (parent_shading_point a) in
  let transmission := snd (fst traced) in
  let env_value := fst (edf_evaluate (environment_edf a) (smp_incoming smp)) in
  let env_prob := snd (edf_evaluate (environment_edf a) (smp_incoming smp)) in
  let mis_weight :=
    if F64.eqb (smp_prob smp) DiracDelta then F64.one
    else mis_power2
           (F64.mul (F64.of_N (bsdf_sample_count a)) (smp_prob smp))
           (F64.mul (F64.of_N (env_sample_count a)) env_prob) in
  smp_mode smp = BSDFMode.Diffuse ->
  fst (fst traced) = false ->
  radiance (bsdf_sampling_iteration a st) =
  SpectrumOps.add (radiance st)
    (SpectrumOps.mul
       (SpectrumOps.scale env_value
          (to_float
             (F64.div (F64.mul transmission mis_weight) (smp_prob smp))))
       (smp_value smp)).
Proof.
  intros drawn smp traced transmission env_value env_prob mis_weight Hm Hhit.
  unfold bsdf_sampling_iteration.
  subst mis_weight env_prob env_value transmission traced smp drawn.
  destruct (bsdf_sample (bsdf a) (sampling_context st) (bsdf_data a) false
              true (geometric_normal a) (shading_basis a) (outgoing a))
    as [smp sc]. simpl in *.
  rewrite Hm. simpl.
  destruct (tracer_trace sc (point a) (smp_incoming smp) (time a)
              (parent_shading_point a)) as [[is_hit tr] sc']. simpl in *.
  rewrite Hhit.
  destruct (edf_evaluate (environment_edf a) (smp_incoming smp))
    as [ev ep]. reflexivity.
Qed.

End Facts.
End ImageBasedLightingFacts.

(* ================================================================== *)
(** * Properties of the light-tracing visitor *)
(* ================================================================== *)

Module LightTracingFacts.
Import LightTracing.

Section Facts.
Context {col : Collaborators}.

(** C5, amended.  For a vertex that passes both visibility tests, the
    sample appended by [visit_light_vertex] and by [visit_vertex] is
    weighted by [transmission * g * flux_to_radiance] with
    [flux_to_radiance = (dist_pixel_to_camera / cos θ)² × rcp_film_area],
    [dist_pixel_to_camera = focal_length / cos θ] and [cos θ] the absolute
    value of the dot product of the camera-to-vertex direction and the
    gaze: the distance is divided by [cos θ] once more before it is
    squared. *)
Theorem camera_measure_factor (v : PathVisitor) (sc : SamplingContext)
    (shading_point : ShadingPoint) (outgoing : Vector3d) (bsdf : BSDF)
    (bsdf_data : BSDFData) (bsdf_mode : Mode) (bsdf_prob : double)
    (throughput : Spectrum) :
  let vertex := get_point shading_point in
  let ndc := project (transform_point_to_local vertex) in
  let transmission :=
    fst (compute_transmission_between sc (m_camera_position v) vertex) in
  let to_camera := Vec3.sub (m_camera_position v) vertex in
  let square_distance := Vec3.square_norm to_camera in
  let vertex_to_camera := Vec3.div to_camera (F64.sqrt square_distance) in
  let cos_theta :=
    F64.abs (Vec3.dot (Vec3.neg vertex_to_camera) (m_camera_direction v)) in
  let dist_pixel_to_camera := F64.div (m_focal_length v) cos_theta in
  let flux_to_radiance :=
    F64.mul (F64.square (F64.div dist_pixel_to_camera cos_theta))
      (m_rcp_film_area v) in
  let weight :=
    to_float
      (F64.mul (F64.mul transmission (F64.div cos_theta square_distance))
         flux_to_radiance) in
  outside_image_plane ndc = false ->
  F64.eqb transmission F64.zero = false ->
  fst (visit_light_vertex v sc vertex) =
    push_sample v (m_alpha v) ndc (SpectrumOps.scale (m_alpha v) weight)
  /\ exists bsdf_value,
       fst (visit_vertex v sc shading_point outgoing bsdf bsdf_data bsdf_mode
              bsdf_prob throughput) =
       push_sample v (SpectrumOps.mul (m_alpha v) throughput) ndc
         (SpectrumOps.scale
            (SpectrumOps.mul (SpectrumOps.mul (m_alpha v) throughput)
               bsdf_value)
            weight).
Proof.
  intros vertex ndc transmission to_camera square_distance vertex_to_camera
    cos_theta dist_pixel_to_camera flux_to_radiance weight Hin Hvis.
  unfold visit_light_vertex, visit_vertex.
  fold vertex. fold ndc. rewrite Hin.
  subst transmission.
  destruct (compute_transmission_between sc (m_camera_position v) vertex)
    as [tr sc']. simpl in Hvis, weight. rewrite Hvis.
  split; [reflexivity | ].
  eexists; reflexivity.
Qed.

(** C10.  A vertex that projects outside of the image plane, or whose
    transmission toward the camera is zero, leaves the visitor as it was:
    no sample, same sample count, same particle weight.  A vertex that
    passes both tests multiplies the particle weight by the throughput,
    appends one sample and counts it. *)
Theorem rejected_vertex_leaves_visitor_unchanged (v : PathVisitor)
    (sc : SamplingContext) (shading_point : ShadingPoint)
    (outgoing : Vector3d) (bsdf : BSDF) (bsdf_data : BSDFData)
    (bsdf_mode : Mode) (bsdf_prob : double) (throughput : Spectrum) :
  let vertex := get_point shading_point in
  let ndc := project (transform_point_to_local vertex) in
  let transmission :=
    fst (compute_transmission_between sc (m_camera_position v) vertex) in
  let visited :=
    fst (visit_vertex v sc shading_point outgoing bsdf bsdf_data bsdf_mode
           bsdf_prob throughput) in
  (outside_image_plane ndc = true \/ F64.eqb transmission F64.zero = true ->
     visited = v)
  /\ (outside_image_plane ndc = false ->
      F64.eqb transmission F64.zero = false ->
        m_alpha visited = SpectrumOps.mul (m_alpha v) throughput
        /\ m_sample_count visited = size_t_incr (m_sample_count v)
        /\ length (m_samples visited) = S (length (m_samples v))).
Proof.
  intros vertex ndc transmission visited.
  subst visited. unfold visit_vertex. fold vertex. fold ndc.
  subst transmission.
  destruct (outside_image_plane ndc) eqn:Hout.
  - split; [reflexivity | discriminate].
  - destruct (compute_transmission_between sc (m_camera_position v) vertex)
      as [tr sc']. cbn [fst].
    destruct (F64.eqb tr F64.zero) eqn:Htr.
    + split; [reflexivity | intros _; discriminate].
    + split.
      * intros [H | H]; discriminate.
      * intros _ _. unfold push_sample. cbn [fst m_alpha m_sample_count m_samples].
        rewrite length_app. simpl. repeat split. lia.
Qed.

End Facts.
End LightTracingFacts.

(* ================================================================== *)
(** * Properties of the power heuristic *)
(* ================================================================== *)

Module PowerHeuristicFacts.
Import ImageBasedLighting.


Section Facts.
Context {col : Collaborators}.


End Facts.
End PowerHeuristicFacts.

(* ================================================================== *)
(** * The Dirac-delta sentinel *)
(* ================================================================== *)

Module SentinelFacts.

Section Facts.
Context {ent : PathTracer.Entities} {walk : PathTracer.Collaborators}
  {par : PathTracer.Parameters}
  {ibl : ImageBasedLighting.Collaborators}.

(** C7.  In the walk, the throughput after an accepted sample is the
    throughput before it times the sampled value when the probability is
    the sentinel, and times the value divided by the probability otherwise
    (Russian roulette may divide the product further).  In the
    BSDF-sampling technique of the estimator, the contribution of a
    diffuse, unoccluded sample carries the MIS weight 1 when the sampled
    probability is the sentinel, and the power heuristic between
    [bsdf_sample_count * bsdf_prob] and [env_sample_count * env_prob]
    otherwise. *)
Theorem dirac_delta_sentinel
    (st : PathTracer.PathState) (smp : PathTracer.BSDFSample)
    (a : ImageBasedLighting.Inputs) (ist : ImageBasedLighting.LoopState) :
  (* the walk *)
  let bsdf_value :=
    if F64.eqb (PathTracer.smp_prob smp) PathTracer.DiracDelta
    then PathTracer.smp_value smp
    else SpectrumOps.div (PathTracer.smp_value smp)
           (to_float (PathTracer.smp_prob smp)) in
  let updated := SpectrumOps.mul (PathTracer.throughput st) bsdf_value in
  let scattering_prob := F64.min (to_double (max_value bsdf_value)) F64.one in
  let after :=
    PathTracer.throughput (PathTracer.outcome_state (PathTracer.scatter st smp)) in
  (* the estimator *)
  let drawn :=
    ImageBasedLighting.bsdf_sample (ImageBasedLighting.bsdf a)
      (ImageBasedLighting.sampling_context ist)
      (ImageBasedLighting.bsdf_data a) false true
      (ImageBasedLighting.geometric_normal a)
      (ImageBasedLighting.shading_basis a) (ImageBasedLighting.outgoing a) in
  let incoming := ImageBasedLighting.smp_incoming (fst drawn) in
  let prob := ImageBasedLighting.smp_prob (fst drawn) in
  let traced :=
    ImageBasedLighting.tracer_trace (snd drawn) (ImageBasedLighting.point a)
      incoming (ImageBasedLighting.time a)
      (ImageBasedLighting.parent_shading_point a) in
  let transmission := snd (fst traced) in
  let env :=
    ImageBasedLighting.edf_evaluate (ImageBasedLighting.environment_edf a)
      incoming in
  let mis_weight :=
    if F64.eqb prob ImageBasedLighting.DiracDelta then F64.one
    else ImageBasedLighting.mis_power2
           (F64.mul (F64.of_N (ImageBasedLighting.bsdf_sample_count a)) prob)
           (F64.mul (F64.of_N (ImageBasedLighting.env_sample_count a))
              (snd env)) in
  Z.land (PathTracer.smp_mode smp) PathTracer.ScatteringModesMask <> 0 ->
  ImageBasedLighting.smp_mode (fst drawn) = BSDFMode.Diffuse ->
  fst (fst traced) = false ->
  (after = updated
   \/ after = SpectrumOps.div updated (to_float scattering_prob))
  /\ ImageBasedLighting.radiance
       (ImageBasedLighting.bsdf_sampling_iteration a ist) =
     SpectrumOps.add (ImageBasedLighting.radiance ist)
       (SpectrumOps.mul
          (SpectrumOps.scale (fst env)
             (to_float (F64.div (F64.mul transmission mis_weight) prob)))
          (ImageBasedLighting.smp_value (fst drawn))).
Proof.
  intros bsdf_value updated scattering_prob after drawn incoming prob traced
    transmission env mis_weight Hmode Hdiffuse Hclear.
  split.
  - exact (PathTracerFacts.dirac_delta_disables_division st smp Hmode).
  - exact (ImageBasedLightingFacts.dirac_delta_disables_mis a ist Hdiffuse
             Hclear).
Qed.

End Facts.
End SentinelFacts.

(* ================================================================== *)
(** * The estimator and the visitor on concrete scenes *)
(* ================================================================== *)

Module KernelExamples.
Import Scenes.

Lemma dirac_delta_sentinel_witness :
  Z.land (PathTracer.smp_mode specular_bounce) all_modes <> 0
  /\ ImageBasedLighting.smp_mode lambertian = BSDFMode.Diffuse
  /\ PathTracer.throughput
       (PathTracer.outcome_state
          (@PathTracer.scatter entities (opaque_room specular_bounce)
             (parameters 0 0) (on_surface (opaque_room specular_bounce) F32.one)
             specular_bounce)) = [F32.one]
  /\ ImageBasedLighting.radiance
       (@ImageBasedLighting.bsdf_sampling_iteration (sky false)
          (under_the_sky false lambertian) (dark false)) = [to_float half].
Proof.
  assert (H1 : Z.land (PathTracer.smp_mode specular_bounce) all_modes <> 0)
    by discriminate.
  assert (H2 : ImageBasedLighting.smp_mode lambertian = BSDFMode.Diffuse)
    by reflexivity.
  split; [exact H1 | split; [exact H2 | ]].
  destruct (@SentinelFacts.dirac_delta_sentinel entities
              (opaque_room specular_bounce) (parameters 0 0) (sky false)
              (on_surface (opaque_room specular_bounce) F32.one)
              specular_bounce (under_the_sky false lambertian) (dark false)
              H1 H2 eq_refl) as [Hwalk Hibl].
  split.
  - destruct Hwalk as [E | E]; rewrite E; reflexivity.
  - rewrite Hibl. reflexivity.
Defined.

Lemma non_diffuse_samples_are_skipped_witness :
  ImageBasedLighting.smp_mode shiny <> BSDFMode.Diffuse
  /\ @ImageBasedLighting.bsdf_sampling_iteration (sky false)
       (under_the_sky false shiny) (dark false) = dark false
  /\ ImageBasedLighting.radiance
       (N.iter 3
          (@ImageBasedLighting.bsdf_sampling_iteration (sky false)
             (under_the_sky false mirror)) (dark false)) = [F32.zero].
Proof.
  assert (H : ImageBasedLighting.smp_mode shiny <> BSDFMode.Diffuse)
    by discriminate.
  split; [exact H | split].
  - exact (proj1 (@ImageBasedLightingFacts.non_diffuse_samples_are_skipped
                    (sky false) (under_the_sky false shiny) (dark false)) H).
  - apply (proj2 (@ImageBasedLightingFacts.non_diffuse_samples_are_skipped
                    (sky false) (under_the_sky false mirror) (dark false))).
    intros sc. discriminate.
Defined.

(** C5, counterexample.  A vertex seen at [cos θ = 4/5] by a camera of
    focal length 1 and film area 1: the factor of the source is
    [(1 / 0.8 / 0.8)² = 625/256], the factor of the specification is
    [(1 / 0.8)² = 25/16]; the sample is emitted with the weight [5/64] of
    the former, not with the weight [1/20] of the latter. *)
Lemma specified_factor_is_not_the_factor_used :
  let v := unit_particle pinhole in
  let cos_theta :=
    LightTracing.cos_theta_of v (LightTracing.vertex_to_camera_dir v off_axis) in
  let specified :=
    LightTracing.flux_to_radiance_as_specified (LightTracing.m_focal_length v)
      (LightTracing.m_rcp_film_area v) cos_theta in
  let g := F64.div cos_theta (F64.of_Z 25) in
  LightTracing.flux_to_radiance_of v cos_theta
    = F64.div (F64.of_Z 625) (F64.of_Z 256)
  /\ specified = F64.div (F64.of_Z 25) (F64.of_Z 16)
  /\ map LightTracing.m_color_rgb
       (LightTracing.m_samples
          (fst (@LightTracing.visit_light_vertex pinhole v tt off_axis)))
     = [@LightTracing.spectrum_to_linear_rgb pinhole
          [to_float (F64.div (F64.of_Z 5) (F64.of_Z 64))]]
  /\ to_float (F64.mul (F64.mul F64.one g) specified)
     <> to_float (F64.div (F64.of_Z 5) (F64.of_Z 64)).
Proof. vm_compute. repeat split. discriminate. Qed.

Lemma camera_measure_factor_witness :
  LightTracing.outside_image_plane (mkVector2d half half) = false
  /\ F64.eqb F64.one F64.zero = false
  /\ map LightTracing.m_color_rgb
       (LightTracing.m_samples
          (fst (@LightTracing.visit_light_vertex pinhole (unit_particle pinhole)
                  tt off_axis)))
     = [@LightTracing.spectrum_to_linear_rgb pinhole
          [to_float (F64.div (F64.of_Z 5) (F64.of_Z 64))]].
Proof.
  assert (H1 : LightTracing.outside_image_plane (mkVector2d half half) = false)
    by reflexivity.
  assert (H2 : F64.eqb F64.one F64.zero = false) by reflexivity.
  split; [exact H1 | split; [exact H2 | ]].
  destruct (@LightTracingFacts.camera_measure_factor pinhole
              (unit_particle pinhole) tt (off_axis_point pinhole tt) down_z
              [F32.one] tt BSDFMode.Diffuse half [F32.one] H1 H2) as [E _].
  cbn [LightTracing.get_point off_axis_point] in E.
  rewrite E. reflexivity.
Defined.

Lemma rejected_vertex_leaves_visitor_unchanged_witness :
  F64.eqb F64.zero F64.zero = true
  /\ fst (@LightTracing.visit_vertex walled_in (unit_particle walled_in) tt
            (off_axis_point walled_in tt) down_z [F32.one] tt
            BSDFMode.Diffuse half [to_float half])
     = unit_particle walled_in.
Proof.
  assert (H : F64.eqb F64.zero F64.zero = true) by reflexivity.
  split; [exact H | ].
  exact (proj1 (@LightTracingFacts.rejected_vertex_leaves_visitor_unchanged
                  walled_in (unit_particle walled_in) tt
                  (off_axis_point walled_in tt) down_z [F32.one] tt
                  BSDFMode.Diffuse half [to_float half])
           (or_intror H)).
Defined.



End KernelExamples.
(* ================================================================== *)
(** * Further properties of the walk *)
(* ================================================================== *)

Module WalkFacts.
Import PathTracer PathTracerFacts.

Section Facts.
Context {ent : Entities} {col : Collaborators} {par : Parameters}.

(** What one iteration does to the path length and to the two callback
    counts. *)
Lemma iteration_accounting st :
  match iteration st with
  | Break st' =>
      path_length st' = path_length st
      /\ ((vertex_visits st' = vertex_visits st
           /\ environment_visits st' = environment_visits st)
          \/ (vertex_visits st' = vertex_visits st
              /\ environment_visits st' = S (environment_visits st))
          \/ (vertex_visits st' = S (vertex_visits st)
              /\ environment_visits st' = environment_visits st))
  | Retry st' => st' = retried st (sampling_context st')
  | Next st' =>
      (path_length st < HardPathLengthLimit)%N
      /\ (m_max_path_length = 0 \/ path_length st < m_max_path_length)%N
      /\ path_length st' = (path_length st + 1)%N
      /\ vertex_visits st' = S (vertex_visits st)
      /\ environment_visits st' = environment_visits st
  end.
Proof.
  unfold iteration, shade, scatter, retried.
  split_branches.
  all: try match goal with
    | H : next_bounce ?s ?i = _ |- _ =>
        destruct (next_bounce_cases s i) as [E | [[E _] | [L [G [sp' [e E]]]]]];
        rewrite E in H; inversion H; subst; clear H E
    end.
  all: unfold vertex_visits, environment_visits in *; simpl in *.
  all: try (repeat split; try reflexivity; try assumption; tauto).
Qed.

(** X1.  Whatever the scene, and after any number of iterations, the
    path length of a walk lies between 1 and the hard limit of 10,000, and
    does not pass the user bound when there is one; this holds for both
    overloads of [trace], hence for the value they return. *)
Theorem path_length_bounds (fuel : nat) (sc : SamplingContext)
    (visitor : Visitor) (sp : ShadingPoint) (ray : ShadingRay)
    (parent : option ShadingPoint) :
  let bounded st :=
    (1 <= path_length st <= HardPathLengthLimit)%N
    /\ (m_max_path_length = 0 \/ path_length st <= m_max_path_length)%N in
  bounded (result_state (trace fuel sc visitor sp))
  /\ bounded (result_state (trace_ray fuel sc visitor ray parent)).
Proof.
  intros bounded.
  assert (Hloop : forall n st, bounded st ->
                    bounded (result_state (trace_loop n st))).
  { induction n as [ | n IH]; intros st Hst; simpl; [exact Hst | ].
    pose proof (iteration_accounting st) as Hs.
    destruct (iteration st) as [st' | st' | st']; simpl.
    - destruct Hs as [Hpl _]. unfold bounded in *. rewrite Hpl. exact Hst.
    - apply IH. rewrite Hs. exact Hst.
    - apply IH. destruct Hs as [H1 [H2 [H3 _]]].
      unfold bounded in *. rewrite H3. lia. }
  assert (Hinit : forall p, bounded (initial_state sc visitor p)).
  { intros p. unfold bounded, HardPathLengthLimit. simpl.
    split; [lia | ].
    destruct (N.eq_0_gt_0_cases m_max_path_length); [left | right]; lia. }
  split; apply Hloop, Hinit.
Qed.

(** X2.  The path length counts the vertices shown to the visitor.  While
    the loop runs, the per-vertex callback has been invoked
    [path_length - 1] times and the environment callback never; when
    [trace] returns, either the environment callback was invoked once and
    the per-vertex callback [path_length - 1] times, or the environment
    callback was not invoked and the per-vertex callback [path_length] or
    [path_length - 1] times. *)
Theorem callbacks_follow_path_length (fuel : nat) (sc : SamplingContext)
    (visitor : Visitor) (sp : ShadingPoint) :
  match trace fuel sc visitor sp with
  | OutOfFuel st =>
      (N.of_nat (vertex_visits st) + 1 = path_length st)%N
      /\ environment_visits st = 0%nat
  | Finished st =>
      (environment_visits st = 1%nat
       /\ (N.of_nat (vertex_visits st) + 1 = path_length st)%N)
      \/ (environment_visits st = 0%nat
          /\ ((N.of_nat (vertex_visits st) + 1 = path_length st)%N
              \/ N.of_nat (vertex_visits st) = path_length st))
  end.
Proof.
  unfold trace.
  assert (Hloop : forall n st,
            (N.of_nat (vertex_visits st) + 1 = path_length st)%N ->
            environment_visits st = 0%nat ->
            match trace_loop n st with
            | OutOfFuel st' =>
                (N.of_nat (vertex_visits st') + 1 = path_length st')%N
                /\ environment_visits st' = 0%nat
            | Finished st' =>
                (environment_visits st' = 1%nat
                 /\ (N.of_nat (vertex_visits st') + 1 = path_length st')%N)
                \/ (environment_visits st' = 0%nat
                    /\ ((N.of_nat (vertex_visits st') + 1 = path_length st')%N
                        \/ N.of_nat (vertex_visits st') = path_length st'))
            end).
  { induction n as [ | n IH]; intros st Hv He; simpl; [tauto | ].
    pose proof (iteration_accounting st) as Hs.
    destruct (iteration st) as [st' | st' | st'].
    - destruct Hs as [Hpl [[V E] | [[V E] | [V E]]]]; rewrite Hpl, V, E.
      + right; split; [exact He | left; exact Hv].
      + left; split; [rewrite He; reflexivity | exact Hv].
      + right; split; [exact He | right; lia].
    - apply IH; rewrite Hs; assumption.
    - destruct Hs as [_ [_ [Hpl [V E]]]].
      apply IH; [rewrite Hpl, V; lia | rewrite E; exact He]. }
  apply Hloop; reflexivity.
Qed.

(** X3.  A walk that starts on nothing ends at once.  When the starting
    point is a miss, or a hit with no material or with a material that has
    no surface shader, [trace] returns after one iteration with path
    length 1, a throughput of ones and the sampling context untouched; the
    visitor is left alone, except that on a miss its environment callback
    is invoked once, with the specular mode and the throughput of ones. *)
Theorem walk_from_nothing (fuel : nat) (sc : SamplingContext)
    (visitor : Visitor) (sp : ShadingPoint) :
  hit sp = false
  \/ get_material sp = None
  \/ (exists material,
        get_material sp = Some material
        /\ get_surface_shader material = None) ->
  trace (S fuel) sc visitor sp =
  Finished
    (if hit sp then initial_state sc visitor sp
     else
       log
         (set_visitor (initial_state sc visitor sp)
            (visit_environment visitor sp
               (normalize_neg (m_dir (get_ray sp))) BSDFMode.Specular
               (SpectrumOps.make spectrum_samples F32.one)))
         CallVisitEnvironment).
Proof.
  intros H. unfold trace. cbn [trace_loop]. unfold iteration.
  cbn [initial_state shading_point_ptr m_path_visitor bsdf_mode throughput].
  destruct (hit sp); cbn [negb]; [ | reflexivity].
  destruct H as [H | [H | [material [H1 H2]]]].
  - discriminate.
  - rewrite H. reflexivity.
  - rewrite H1, H2. reflexivity.
Qed.

(** With Russian roulette disabled an iteration leaves the throughput as it
    is or multiplies it by one sampled value divided by its probability. *)
Lemma iteration_throughput st :
  m_rr_min_path_length = 0%N ->
  throughput (outcome_state (iteration st)) = throughput st
  \/ exists bsdf sc data gn basis outgoing,
       throughput (outcome_state (iteration st)) =
       SpectrumOps.mul (throughput st)
         (divide_by_prob
            (smp_value
               (fst (bsdf_sample bsdf sc data Adjoint true gn basis outgoing)))
            (smp_prob
               (fst (bsdf_sample bsdf sc data Adjoint true gn basis outgoing)))).
Proof.
  intros Hrr.
  assert (Hsc : forall st1 bsdf sc data gn basis outgoing,
            throughput st1 = throughput st ->
            let smp :=
              fst (bsdf_sample bsdf sc data Adjoint true gn basis outgoing) in
            throughput (outcome_state (scatter st1 smp)) = throughput st
            \/ throughput (outcome_state (scatter st1 smp)) =
               SpectrumOps.mul (throughput st)
                 (divide_by_prob (smp_value smp) (smp_prob smp))).
  { intros st1 bsdf sc data gn basis outgoing Ht smp.
    destruct (Z.eq_dec (Z.land (smp_mode smp) ScatteringModesMask) 0)
      as [Hz | Hnz].
    - left. unfold scatter. apply Z.eqb_eq in Hz. rewrite Hz. exact Ht.
    - right. rewrite (scatter_without_roulette st1 smp Hnz).
      + rewrite next_bounce_throughput. cbn [throughput set_throughput].
        rewrite Ht. reflexivity.
      + rewrite Hrr. intros [H _]. exact (N.lt_irrefl _ H). }
  unfold iteration, shade.
  split_branches; try (left; reflexivity).
  all: match goal with
    | E : bsdf_sample ?b ?sc ?d _ _ ?gn ?bs ?o = (?smp, _) |- _ =>
        match goal with
        | |- context [scatter ?st1 smp] =>
            destruct (Hsc st1 b sc d gn bs o eq_refl) as [H | H];
            rewrite E in H; cbn [fst] in H;
            [left; exact H
            | right; exists b, sc, d, gn, bs, o; rewrite E; exact H]
        end
    end.
Qed.

Lemma mul_nonneg_pos prec emax a b :
  nonneg a = true -> finite_pos b = true ->
  nonneg (SFmul prec emax a b) = true.
Proof.
  intros Na Pb. destruct (finite_pos_shape b Pb) as [m [e ->]].
  destruct a as [s | [ | ] | | [ | ] ma ea]; simpl in *; try easy.
  apply IEEEFacts.has_sign_nonneg, IEEEFacts.binary_round_aux_sign; lia.
Qed.

(** X4.  With Russian roulette disabled, if every sample the BSDFs
    return has, once divided by its probability, finite and strictly
    positive components, then at every iteration of every walk no
    component of the throughput is a NaN or negative (a component may grow
    to [+Inf]). *)
Theorem throughput_sign_without_roulette :
  m_rr_min_path_length = 0%N ->
  (forall bsdf sc data gn basis outgoing,
     Forall (fun x => finite_pos x = true)
       (divide_by_prob
          (smp_value
             (fst (bsdf_sample bsdf sc data Adjoint true gn basis outgoing)))
          (smp_prob
             (fst (bsdf_sample bsdf sc data Adjoint true gn basis outgoing))))) ->
  forall fuel sc visitor sp,
    Forall (fun x => is_nan x = false /\ nonneg x = true)
      (throughput (result_state (trace fuel sc visitor sp))).
Proof.
  intros Hrr Hpos fuel sc visitor sp.
  assert (Hstep : forall st,
            Forall (fun x => nonneg x = true) (throughput st) ->
            Forall (fun x => nonneg x = true)
              (throughput (outcome_state (iteration st)))).
  { intros st Hst.
    destruct (iteration_throughput st Hrr)
      as [E | [bsdf [sc' [data [gn [basis [outgoing E]]]]]]]; rewrite E.
    - exact Hst.
    - unfold SpectrumOps.mul.
      apply Forall_map2 with (P := fun x => nonneg x = true)
                             (Q := fun x => finite_pos x = true);
        [ | exact Hst | apply Hpos].
      intros x y Hx Hy. apply mul_nonneg_pos; assumption. }
  assert (Hloop : forall n st,
            Forall (fun x => nonneg x = true) (throughput st) ->
            Forall (fun x => nonneg x = true)
              (throughput (result_state (trace_loop n st)))).
  { induction n as [ | n IH]; intros st Hst; simpl; [exact Hst | ].
    specialize (Hstep st Hst).
    destruct (iteration st) as [st' | st' | st']; simpl in *;
      [exact Hstep | apply IH; exact Hstep | apply IH; exact Hstep]. }
  eapply Forall_impl;
    [ | apply (Hloop fuel (initial_state sc visitor sp))].
  - intros x Hx. split; [apply nonneg_not_nan | ]; exact Hx.
  - cbn [initial_state throughput]. unfold SpectrumOps.make.
    apply Forall_forall. intros x Hx. apply repeat_spec in Hx. subst x.
    reflexivity.
Qed.

End Facts.
End WalkFacts.

(* ================================================================== *)
(** * Further properties of the estimator *)
(* ================================================================== *)

Module EstimatorFacts.
Import ImageBasedLighting Accounting.

Section Facts.
Context {col : Collaborators}.

Lemma iter_step (A : Type) (f : A -> A) (n : N) (x : A) :
  N.iter (N.succ n) f x = f (N.iter n f x).
Proof. apply N.iter_succ. Qed.

(** One sample of the BSDF technique: at most one ray, and no more lookups
    than rays. *)
Lemma bsdf_sampling_iteration_cost (a : Inputs) (st : LoopState) :
  let st' := bsdf_sampling_iteration a st in
  (rays_traced (events st) <= rays_traced (events st')
   <= S (rays_traced (events st)))%nat
  /\ (lookups (events st') + rays_traced (events st)
      <= lookups (events st) + rays_traced (events st'))%nat.
Proof.
  intros st'. subst st'. unfold bsdf_sampling_iteration.
  destruct (bsdf_sample _ _ _ _ _ _ _ _) as [smp sc].
  destruct (negb _); [simpl; lia | ].
  destruct (tracer_trace _ _ _ _ _) as [[is_hit tr] sc'].
  destruct is_hit; [unfold rays_traced, lookups; simpl; lia | ].
  destruct (edf_evaluate _ _) as [ev ep].
  unfold rays_traced, lookups; simpl; lia.
Qed.

(** One sample of the environment technique: exactly one ray, at most one
    lookup. *)
Lemma env_sampling_iteration_cost (a : Inputs) (st : LoopState) :
  let st' := env_sampling_iteration a st in
  rays_traced (events st') = S (rays_traced (events st))
  /\ (lookups (events st) <= lookups (events st')
      <= S (lookups (events st)))%nat
  /\ sampling_context st' = snd (next_vector2 (sampling_context st)).
Proof.
  intros st'. subst st'. unfold env_sampling_iteration.
  destruct (next_vector2 _) as [s sc].
  destruct (edf_sample _ _) as [[incoming ev] ep].
  destruct (tracer_trace _ _ _ _ _) as [[is_hit tr] sc'].
  destruct is_hit;
    [unfold rays_traced, lookups; simpl; repeat split; lia | ].
  destruct (bsdf_evaluate _ _ _ _ _ _ _ _) as [[bv bp] | ];
    unfold rays_traced, lookups; simpl; repeat split; lia.
Qed.

Lemma average_events (n : size_t) (st : LoopState) :
  events (average n st) = events st
  /\ sampling_context (average n st) = sampling_context st.
Proof. unfold average. destruct (1 <? n)%N; split; reflexivity. Qed.

(** X5.  The ray budget.  The environment technique traces exactly
    [env_sample_count] occlusion rays; the BSDF technique traces at most
    [bsdf_sample_count]; in both, the environment and BSDF evaluations
    made never outnumber the rays traced. *)
Theorem estimator_ray_budget (a : Inputs) (st : LoopState) :
  let by_bsdf := compute_ibl_bsdf_sampling a st in
  let by_env := compute_ibl_environment_sampling a st in
  (rays_traced (events st) <= rays_traced (events by_bsdf)
   <= rays_traced (events st) + N.to_nat (bsdf_sample_count a))%nat
  /\ rays_traced (events by_env) =
     (rays_traced (events st) + N.to_nat (env_sample_count a))%nat
  /\ (lookups (events by_bsdf) + rays_traced (events st)
      <= lookups (events st) + rays_traced (events by_bsdf))%nat
  /\ (lookups (events by_env) + rays_traced (events st)
      <= lookups (events st) + rays_traced (events by_env))%nat.
Proof.
  intros by_bsdf by_env. subst by_bsdf by_env.
  unfold compute_ibl_bsdf_sampling, compute_ibl_environment_sampling.
  rewrite (proj1 (average_events _ _)), (proj1 (average_events _ _)).
  set (zb := mkLoopState (SpectrumOps.set (radiance st) F32.zero)
               (sampling_context st) (events st)).
  set (ze := mkLoopState (SpectrumOps.set (radiance st) F32.zero)
               (split_in_place 2 (env_sample_count a) (sampling_context st))
               (events st)).
  assert (Hb : forall n,
            (rays_traced (events st)
             <= rays_traced (events (N.iter n (bsdf_sampling_iteration a) zb))
             <= rays_traced (events st) + N.to_nat n)%nat
            /\ (lookups (events (N.iter n (bsdf_sampling_iteration a) zb))
                + rays_traced (events st)
                <= lookups (events st)
                   + rays_traced
                       (events (N.iter n (bsdf_sampling_iteration a) zb)))%nat).
  { intros n. induction n as [ | n IH] using N.peano_ind.
    - simpl. lia.
    - rewrite iter_step, N2Nat.inj_succ.
      pose proof (bsdf_sampling_iteration_cost a
                    (N.iter n (bsdf_sampling_iteration a) zb)) as Hc.
      cbv zeta in Hc. lia. }
  assert (He : forall n,
            rays_traced (events (N.iter n (env_sampling_iteration a) ze))
            = (rays_traced (events st) + N.to_nat n)%nat
            /\ (lookups (events st)
                <= lookups (events (N.iter n (env_sampling_iteration a) ze))
                <= lookups (events st) + N.to_nat n)%nat).
  { intros n. induction n as [ | n IH] using N.peano_ind.
    - simpl. lia.
    - rewrite iter_step, N2Nat.inj_succ.
      pose proof (env_sampling_iteration_cost a
                    (N.iter n (env_sampling_iteration a) ze)) as Hc.
      cbv zeta in Hc. lia. }
  specialize (Hb (bsdf_sample_count a)). specialize (He (env_sample_count a)).
  lia.
Qed.

(** X6.  The environment technique leaves the sampling context where its
    own draws put it: one split, then one two-dimensional draw per sample.
    Neither the occlusion rays, which work on a copy, nor the BSDF or the
    environment have a say. *)
Theorem environment_sampling_context (a : Inputs) (st : LoopState) :
  sampling_context (compute_ibl_environment_sampling a st) =
  N.iter (env_sample_count a) (fun sc => snd (next_vector2 sc))
    (split_in_place 2 (env_sample_count a) (sampling_context st)).
Proof.
  unfold compute_ibl_environment_sampling.
  rewrite (proj2 (average_events _ _)).
  set (ze := mkLoopState _ _ _).
  change (split_in_place 2 (env_sample_count a) (sampling_context st))
    with (sampling_context ze).
  generalize (env_sample_count a) as n. intros n.
  induction n as [ | n IH] using N.peano_ind.
  - reflexivity.
  - rewrite !iter_step, <- IH.
    apply (env_sampling_iteration_cost a).
Qed.

(** Where every occlusion ray is blocked, neither loop adds to the
    radiance, and neither evaluates the environment or the BSDF. *)
Lemma occluded_loops (a : Inputs) (st : LoopState) :
  (forall sc p d t parent, fst (fst (tracer_trace sc p d t parent)) = true) ->
  forall n,
    (radiance (N.iter n (bsdf_sampling_iteration a) st) = radiance st
     /\ lookups (events (N.iter n (bsdf_sampling_iteration a) st))
        = lookups (events st))
    /\ (radiance (N.iter n (env_sampling_iteration a) st) = radiance st
        /\ lookups (events (N.iter n (env_sampling_iteration a) st))
           = lookups (events st)).
Proof.
  intros Hocc.
  assert (Hb : forall x,
            radiance (bsdf_sampling_iteration a x) = radiance x
            /\ lookups (events (bsdf_sampling_iteration a x))
               = lookups (events x)).
  { intros x. unfold bsdf_sampling_iteration.
    destruct (bsdf_sample _ _ _ _ _ _ _ _) as [smp sc].
    destruct (negb _); [split; reflexivity | ].
    pose proof (Hocc sc (point a) (smp_incoming smp) (time a)
                  (parent_shading_point a)) as H.
    destruct (tracer_trace _ _ _ _ _) as [[is_hit tr] sc']. simpl in H.
    rewrite H. split; reflexivity. }
  assert (He : forall x,
            radiance (env_sampling_iteration a x) = radiance x
            /\ lookups (events (env_sampling_iteration a x))
               = lookups (events x)).
  { intros x. unfold env_sampling_iteration.
    destruct (next_vector2 _) as [s sc].
    destruct (edf_sample _ _) as [[incoming ev] ep].
    pose proof (Hocc sc (point a) incoming (time a)
                  (parent_shading_point a)) as H.
    destruct (tracer_trace _ _ _ _ _) as [[is_hit tr] sc']. simpl in H.
    rewrite H. split; reflexivity. }
  intros n; split; induction n as [ | n IH] using N.peano_ind;
    try (split; reflexivity); rewrite iter_step.
  - destruct (Hb (N.iter n (bsdf_sampling_iteration a) st)) as [R L].
    rewrite R, L. exact IH.
  - destruct (He (N.iter n (env_sampling_iteration a) st)) as [R L].
    rewrite R, L. exact IH.
Qed.

Lemma add_zero_spectra (r : Spectrum) :
  SpectrumOps.add (SpectrumOps.set r F32.zero)
    (SpectrumOps.set (SpectrumOps.set r F32.zero) F32.zero)
  = SpectrumOps.set r F32.zero.
Proof.
  unfold SpectrumOps.add, SpectrumOps.set.
  induction r as [ | x r IH]; simpl; [reflexivity | ].
  rewrite IH. reflexivity.
Qed.

Lemma average_of_zeros (n : size_t) (st : LoopState) (r : Spectrum) :
  radiance st = SpectrumOps.set r F32.zero ->
  radiance (average n st) = SpectrumOps.set r F32.zero.
Proof.
  intros H. unfold average.
  destruct (1 <? n)%N eqn:E; [ | exact H].
  apply N.ltb_lt in E. cbn [radiance]. rewrite H.
  unfold SpectrumOps.div, SpectrumOps.set. rewrite map_map.
  apply map_ext. intros _. apply RoundingFacts.zero_div_count. lia.
Qed.

(** X7.  A point from which every occlusion ray is blocked receives
    nothing: whatever the sample counts, the BSDF and the environment,
    [compute_image_based_lighting] returns the caller's spectrum filled
    with [+0], and it evaluates neither the environment nor the BSDF. *)
Theorem occluded_point_receives_nothing (a : Inputs) (st : LoopState) :
  (forall sc p d t parent, fst (fst (tracer_trace sc p d t parent)) = true) ->
  radiance (compute_image_based_lighting a st)
  = SpectrumOps.set (radiance st) F32.zero
  /\ lookups (events (compute_image_based_lighting a st))
     = lookups (events st).
Proof.
  intros Hocc.
  unfold compute_image_based_lighting. cbn [radiance events].
  set (st1 := compute_ibl_bsdf_sampling a st).
  assert (H1 : radiance st1 = SpectrumOps.set (radiance st) F32.zero
               /\ lookups (events st1) = lookups (events st)).
  { subst st1. unfold compute_ibl_bsdf_sampling.
    set (z := mkLoopState _ _ _).
    destruct (occluded_loops a z Hocc (bsdf_sample_count a)) as [[R L] _].
    split.
    - apply average_of_zeros. rewrite R. reflexivity.
    - rewrite (proj1 (average_events _ _)), L. reflexivity. }
  destruct H1 as [R1 L1].
  assert (H2 : radiance (compute_ibl_environment_sampling a st1)
               = SpectrumOps.set (radiance st1) F32.zero
               /\ lookups (events (compute_ibl_environment_sampling a st1))
                  = lookups (events st1)).
  { unfold compute_ibl_environment_sampling.
    set (z := mkLoopState _ _ _).
    destruct (occluded_loops a z Hocc (env_sample_count a)) as [_ [R L]].
    split.
    - apply average_of_zeros. rewrite R. reflexivity.
    - rewrite (proj1 (average_events _ _)), L. reflexivity. }
  destruct H2 as [R2 L2].
  split.
  - rewrite R2, R1. apply add_zero_spectra.
  - rewrite L2, L1. reflexivity.
Qed.

(** X8.  With no sample asked of either technique, the estimate is the
    caller's spectrum filled with [+0]: no ray is traced, nothing is
    evaluated, and the sampling context is only split. *)
Theorem estimate_without_samples (a : Inputs) (st : LoopState) :
  bsdf_sample_count a = 0%N -> env_sample_count a = 0%N ->
  compute_image_based_lighting a st =
  mkLoopState (SpectrumOps.set (radiance st) F32.zero)
    (split_in_place 2 0 (sampling_context st)) (events st).
Proof.
  intros Hb He.
  unfold compute_image_based_lighting, compute_ibl_environment_sampling,
    compute_ibl_bsdf_sampling.
  rewrite Hb, He. cbn [N.iter average N.ltb N.compare radiance
    sampling_context events].
  rewrite add_zero_spectra. reflexivity.
Qed.

End Facts.
End EstimatorFacts.

(* ================================================================== *)
(** * Further properties of the light-tracing visitor *)
(* ================================================================== *)

Module VisitorFacts.
Import LightTracing Accounting.

(** Exchanging the operands of a comparison exchanges [Lt] and [Gt]. *)
Lemma SFcompare_antisym (a b : spec_float) :
  SFcompare b a = option_map CompOpp (SFcompare a b).
Proof.
  destruct a as [sa | sa | | sa ma ea], b as [sb | sb | | sb mb eb]; simpl;
    try destruct sa; try destruct sb; try reflexivity.
  - rewrite (Z.compare_antisym ea eb).
    destruct (ea ?= eb); simpl; try reflexivity.
    change (Pos.compare_cont Eq mb ma) with (mb ?= ma)%positive.
    change (Pos.compare_cont Eq ma mb) with (ma ?= mb)%positive.
    rewrite (Pos.compare_antisym ma mb).
    destruct (ma ?= mb)%positive; reflexivity.
  - rewrite (Z.compare_antisym ea eb).
    destruct (ea ?= eb); simpl; try reflexivity.
    change (Pos.compare_cont Eq mb ma) with (mb ?= ma)%positive.
    change (Pos.compare_cont Eq ma mb) with (ma ?= mb)%positive.
    rewrite (Pos.compare_antisym ma mb). reflexivity.
Qed.

Lemma SFcompare_nan (a b : spec_float) :
  SFcompare a b = None -> is_nan a = true \/ is_nan b = true.
Proof.
  destruct a as [sa | sa | | sa ma ea], b as [sb | sb | | sb mb eb]; simpl;
    try discriminate; auto.
Qed.

Lemma coordinate_test (c : double) :
  F64.ltb c F64.zero || F64.geb c F64.one = false <-> passes_plane_test c.
Proof.
  unfold passes_plane_test, F64.ltb, F64.geb, nonneg, SFltb, SFleb, F64.zero.
  rewrite (SFcompare_antisym c (S754_zero false)),
    (SFcompare_antisym c F64.one).
  destruct (SFcompare c (S754_zero false)) as [[ | | ] | ] eqn:E0;
  destruct (SFcompare c F64.one) as [[ | | ] | ] eqn:E1; simpl;
    try (split; [discriminate | intros [H | [H1 H2]]; try discriminate]);
    try (split; [intros _; right; split; reflexivity | reflexivity]).
  all: try (destruct c; discriminate).
  all: try (split; [intros _ | reflexivity]; left).
  all: try (destruct (SFcompare_nan _ _ E0) as [H | H];
            [exact H | discriminate]).
  all: try (destruct (SFcompare_nan _ _ E1) as [H | H];
            [exact H | discriminate]).
Qed.

Lemma plane_test_accepts (ndc : Vector2d) :
  outside_image_plane ndc = false
  <-> passes_plane_test (v2_x ndc) /\ passes_plane_test (v2_y ndc).
Proof.
  unfold outside_image_plane.
  rewrite <- (coordinate_test (v2_x ndc)), <- (coordinate_test (v2_y ndc)).
  destruct (F64.ltb (v2_x ndc) F64.zero), (F64.geb (v2_x ndc) F64.one),
    (F64.ltb (v2_y ndc) F64.zero), (F64.geb (v2_y ndc) F64.one); simpl;
    intuition discriminate.
Qed.

(** X9.  The image-plane test lets through exactly the projections whose
    two coordinates are each a NaN or a number of [0,1).  So a projection
    with a NaN coordinate is not rejected when the other coordinate is
    acceptable, and a projection of two NaNs never is. *)
Theorem image_plane_test (ndc : Vector2d) :
  (outside_image_plane ndc = false
   <-> passes_plane_test (v2_x ndc) /\ passes_plane_test (v2_y ndc))
  /\ (is_nan (v2_x ndc) = true -> passes_plane_test (v2_y ndc) ->
      outside_image_plane ndc = false)
  /\ (passes_plane_test (v2_x ndc) -> is_nan (v2_y ndc) = true ->
      outside_image_plane ndc = false).
Proof.
  split; [apply plane_test_accepts | split]; intros H1 H2;
    apply plane_test_accepts; split; try assumption; left; assumption.
Qed.

Section Facts.
Context {col : Collaborators}.

(** X10.  A visit never rewrites what the visitor holds: the cached
    camera stays as it is and the earlier samples stay in place.  A visit
    either leaves the visitor untouched or appends exactly one sample, of
    alpha 1, at the projection of the vertex, which then passed the
    image-plane test, and counts it.  The light vertex, moreover, never
    changes the particle weight. *)
Theorem visits_only_append (v : PathVisitor) (sc : SamplingContext)
    (shading_point : ShadingPoint) (outgoing : Vector3d) (bsdf : BSDF)
    (bsdf_data : BSDFData) (bsdf_mode : Mode) (bsdf_prob : double)
    (throughput : Spectrum) :
  let vertex := get_point shading_point in
  let ndc := project (transform_point_to_local vertex) in
  let after_vertex :=
    fst (visit_vertex v sc shading_point outgoing bsdf bsdf_data bsdf_mode
           bsdf_prob throughput) in
  let after_light := fst (visit_light_vertex v sc vertex) in
  (appended v after_vertex ndc /\ same_camera v after_vertex)
  /\ (appended v after_light ndc /\ same_camera v after_light
      /\ m_alpha after_light = m_alpha v).
Proof.
  intros vertex ndc after_vertex after_light.
  subst after_vertex after_light.
  unfold visit_vertex, visit_light_vertex. fold vertex. fold ndc.
  destruct (outside_image_plane ndc) eqn:Hout.
  - repeat split; left; reflexivity.
  - apply plane_test_accepts in Hout. destruct Hout as [Hx Hy].
    destruct (compute_transmission_between sc (m_camera_position v) vertex)
      as [tr sc'].
    destruct (F64.eqb tr F64.zero).
    + repeat split; left; reflexivity.
    + cbn [fst]. unfold push_sample, appended, same_camera.
      cbn [m_samples m_sample_count m_camera_position m_camera_direction
           m_rcp_film_area m_focal_length m_alpha].
      repeat split; right; eexists; repeat split; assumption.
Qed.

(** X11.  A light vertex that projects outside of the image plane, or
    whose transmission toward the camera is zero, leaves the visitor as it
    was. *)
Theorem rejected_light_vertex (v : PathVisitor) (sc : SamplingContext)
    (vertex : Vector3d) :
  outside_image_plane (project (transform_point_to_local vertex)) = true
  \/ F64.eqb
       (fst (compute_transmission_between sc (m_camera_position v) vertex))
       F64.zero = true ->
  fst (visit_light_vertex v sc vertex) = v.
Proof.
  intros H. unfold visit_light_vertex.
  destruct (outside_image_plane _); [reflexivity | ].
  destruct (compute_transmission_between _ _ _) as [tr sc']. cbn [fst] in *.
  destruct H as [H | H]; [discriminate | ]. rewrite H. reflexivity.
Qed.

(** X13.  [get_sample_count] is the number of samples added since the
    construction: it is 0 for a new visitor, whose vector is the one it was
    given, and every visit keeps the count equal (as a [size_t]) to the
    number of samples appended behind that vector. *)
Theorem sample_count_tracks_samples (samples0 : list Sample)
    (initial_alpha : Spectrum) (v : PathVisitor) (sc : SamplingContext)
    (shading_point : ShadingPoint) (outgoing : Vector3d) (bsdf : BSDF)
    (bsdf_data : BSDFData) (bsdf_mode : Mode) (bsdf_prob : double)
    (throughput : Spectrum) (vertex : Vector3d) :
  (tracks samples0 (make_path_visitor samples0 initial_alpha)
   /\ get_sample_count (make_path_visitor samples0 initial_alpha) = 0%N)
  /\ (tracks samples0 v ->
      tracks samples0
        (fst (visit_vertex v sc shading_point outgoing bsdf bsdf_data
                bsdf_mode bsdf_prob throughput))
      /\ tracks samples0 (fst (visit_light_vertex v sc vertex))).
Proof.
  split.
  - split; [ | reflexivity]. exists []. split; [ | reflexivity].
    simpl. rewrite app_nil_r. reflexivity.
  - intros [added [Hs Hc]].
    assert (Hpush : forall alpha ndc radiance,
              tracks samples0 (push_sample v alpha ndc radiance)).
    { intros alpha ndc radiance.
      exists (added ++ [mkSample ndc (spectrum_to_linear_rgb radiance) F32.one]).
      unfold push_sample. cbn [m_samples m_sample_count].
      split; [rewrite Hs, app_assoc; reflexivity | ].
      rewrite Hc, length_app. cbn [length]. unfold size_t_incr.
      rewrite N.Div0.add_mod_idemp_l.
      f_equal. lia. }
    assert (Hsame : tracks samples0 v) by (exists added; split; assumption).
    split.
    + unfold visit_vertex.
      destruct (outside_image_plane _); [exact Hsame | ].
      destruct (compute_transmission_between _ _ _) as [tr sc'].
      destruct (F64.eqb tr F64.zero); [exact Hsame | apply Hpush].
    + unfold visit_light_vertex.
      destruct (outside_image_plane _); [exact Hsame | ].
      destruct (compute_transmission_between _ _ _) as [tr sc'].
      destruct (F64.eqb tr F64.zero); [exact Hsame | apply Hpush].
Qed.

End Facts.
End VisitorFacts.

(* ================================================================== *)
(** * Properties of the spot light *)
(* ================================================================== *)

Module SpotLightFacts.
Import SpotLight.

Section Facts.
Context {col : Collaborators}.

(** X12.  The members of the spot light agree with each other.  The
    two overloads of [evaluate] return the same value, and the probability
    the second reports is the one [evaluate_pdf] returns.  For a direction
    inside the outer cone that probability is the one [sample] reports;
    for any other direction, a NaN cosine included, the value is the
    caller's spectrum filled with [+0] and the probability is [+0]. *)
Theorem spot_light_members_agree (l : Light) (data : InputValues)
    (outgoing : Vector3d) (value : Spectrum) (s : Vector2d) :
  let inside :=
    F64.ltb (m_cos_outer_half_angle l) (Vec3.dot outgoing (m_axis l)) in
  fst (evaluate_with_probability l data outgoing value)
  = evaluate l data outgoing value
  /\ snd (evaluate_with_probability l data outgoing value)
     = evaluate_pdf l data outgoing
  /\ (inside = true ->
      evaluate_pdf l data outgoing = snd (sample l data s))
  /\ (inside = false ->
      evaluate l data outgoing value = map (fun _ => F32.zero) value
      /\ evaluate_pdf l data outgoing = F64.zero).
Proof.
  unfold evaluate_with_probability, evaluate, evaluate_pdf, sample.
  destruct (F64.ltb (m_cos_outer_half_angle l) (Vec3.dot outgoing (m_axis l)));
    simpl; repeat split; auto; discriminate.
Qed.

End Facts.
End SpotLightFacts.
(* ================================================================== *)
(** * The further properties on concrete scenes *)
(* ================================================================== *)

Module MoreExamples.
Import Scenes MoreScenes.

Lemma walk_from_nothing_witness :
  PathTracer.hit (miss ray0) = false
  /\ PathTracer.get_material (bare_surface ray0) = None
  /\ (exists st,
        @PathTracer.trace entities (opaque_room grey) (parameters 1 0) 1
          [] [] (miss ray0) = PathTracer.Finished st
        /\ PathTracer.path_length st = 1%N
        /\ PathTracer.environment_visits st = 1%nat)
  /\ (exists st,
        @PathTracer.trace entities (opaque_room grey) (parameters 1 0) 1
          [] [] (bare_surface ray0) = PathTracer.Finished st
        /\ PathTracer.m_path_visitor st = []
        /\ PathTracer.environment_visits st = 0%nat).
Proof.
  assert (H1 : PathTracer.hit (miss ray0) = false) by reflexivity.
  assert (H2 : PathTracer.get_material (bare_surface ray0) = None)
    by reflexivity.
  split; [exact H1 | split; [exact H2 | split]].
  - eexists. split.
    + apply (@WalkFacts.walk_from_nothing entities (opaque_room grey)
               (parameters 1 0) 0%nat [] [] (miss ray0)).
      left. exact H1.
    + split; reflexivity.
  - eexists. split.
    + apply (@WalkFacts.walk_from_nothing entities (opaque_room grey)
               (parameters 1 0) 0%nat [] [] (bare_surface ray0)).
      right. left. exact H2.
    + split; reflexivity.
Defined.

Lemma throughput_sign_without_roulette_witness :
  @PathTracer.m_rr_min_path_length (parameters 0 0) = 0%N
  /\ (forall bsdf sc data gn basis outgoing,
        Forall (fun x => finite_pos x = true)
          (@PathTracer.divide_by_prob entities matte_room
             (PathTracer.smp_value
                (fst (@PathTracer.bsdf_sample entities matte_room bsdf sc data
                        false true gn basis outgoing)))
             (PathTracer.smp_prob
                (fst (@PathTracer.bsdf_sample entities matte_room bsdf sc data
                        false true gn basis outgoing)))))
  /\ Forall (fun x => is_nan x = false /\ nonneg x = true)
       (PathTracer.throughput
          (PathTracer.result_state
             (@PathTracer.trace entities matte_room (parameters 0 0) 40
                [] [] (surface F32.one blow_up ray0)))).
Proof.
  assert (H1 : @PathTracer.m_rr_min_path_length (parameters 0 0) = 0%N)
    by reflexivity.
  assert (H2 : forall bsdf sc data gn basis outgoing,
             Forall (fun x => finite_pos x = true)
               (@PathTracer.divide_by_prob entities matte_room
                  (PathTracer.smp_value
                     (fst (@PathTracer.bsdf_sample entities matte_room bsdf sc
                             data false true gn basis outgoing)))
                  (PathTracer.smp_prob
                     (fst (@PathTracer.bsdf_sample entities matte_room bsdf sc
                             data false true gn basis outgoing))))).
  { intros bsdf sc data gn basis outgoing.
    constructor; [vm_compute; reflexivity | constructor]. }
  split; [exact H1 | split; [exact H2 | ]].
  exact (@WalkFacts.throughput_sign_without_roulette entities matte_room
           (parameters 0 0) H1 H2 40%nat [] [] (surface F32.one blow_up ray0)).
Defined.

Lemma occluded_point_receives_nothing_witness :
  (forall sc p d t parent,
     fst (fst (@ImageBasedLighting.tracer_trace (sky true) sc p d t parent))
     = true)
  /\ ImageBasedLighting.radiance
       (@ImageBasedLighting.compute_image_based_lighting (sky true)
          (many_samples true lambertian) (dark true)) = [F32.zero]
  /\ Accounting.lookups
       (ImageBasedLighting.events
          (@ImageBasedLighting.compute_image_based_lighting (sky true)
             (many_samples true lambertian) (dark true))) = 0%nat.
Proof.
  assert (H : forall sc p d t parent,
            fst (fst (@ImageBasedLighting.tracer_trace (sky true) sc p d t
                        parent)) = true)
    by (intros; reflexivity).
  split; [exact H | ].
  exact (@EstimatorFacts.occluded_point_receives_nothing (sky true)
           (many_samples true lambertian) (dark true) H).
Defined.

Lemma estimate_without_samples_witness :
  ImageBasedLighting.bsdf_sample_count (no_samples false lambertian) = 0%N
  /\ ImageBasedLighting.env_sample_count (no_samples false lambertian) = 0%N
  /\ @ImageBasedLighting.compute_image_based_lighting (sky false)
       (no_samples false lambertian)
       (@ImageBasedLighting.mkLoopState (sky false) [F32.one] tt [])
     = dark false.
Proof.
  split; [reflexivity | split; [reflexivity | ]].
  exact (@EstimatorFacts.estimate_without_samples (sky false)
           (no_samples false lambertian)
           (@ImageBasedLighting.mkLoopState (sky false) [F32.one] tt [])
           eq_refl eq_refl).
Defined.

Lemma image_plane_test_witness :
  is_nan (v2_x (mkVector2d S754_nan half)) = true
  /\ Accounting.passes_plane_test (v2_y (mkVector2d S754_nan half))
  /\ LightTracing.outside_image_plane (mkVector2d S754_nan half) = false.
Proof.
  assert (H1 : is_nan (v2_x (mkVector2d S754_nan half)) = true)
    by reflexivity.
  assert (H2 : Accounting.passes_plane_test (v2_y (mkVector2d S754_nan half)))
    by (right; split; reflexivity).
  split; [exact H1 | split; [exact H2 | ]].
  exact (proj1 (proj2 (VisitorFacts.image_plane_test
                         (mkVector2d S754_nan half))) H1 H2).
Defined.

Lemma rejected_light_vertex_witness :
  F64.eqb F64.zero F64.zero = true
  /\ fst (@LightTracing.visit_light_vertex walled_in (unit_particle walled_in)
            tt off_axis)
     = unit_particle walled_in.
Proof.
  assert (H : F64.eqb F64.zero F64.zero = true) by reflexivity.
  split; [exact H | ].
  exact (@VisitorFacts.rejected_light_vertex walled_in
           (unit_particle walled_in) tt off_axis (or_intror H)).
Defined.

Lemma sample_count_tracks_samples_witness :
  Accounting.tracks [] (unit_particle pinhole)
  /\ Accounting.tracks []
       (fst (@LightTracing.visit_light_vertex pinhole (unit_particle pinhole)
               tt off_axis))
  /\ LightTracing.get_sample_count
       (fst (@LightTracing.visit_light_vertex pinhole (unit_particle pinhole)
               tt off_axis)) = 1%N.
Proof.
  assert (H : Accounting.tracks [] (unit_particle pinhole))
    by (exists []; split; reflexivity).
  split; [exact H | split; [ | reflexivity]].
  exact (proj2
           (proj2 (@VisitorFacts.sample_count_tracks_samples pinhole []
                     [F32.one] (unit_particle pinhole) tt
                     (off_axis_point pinhole tt) down_z [F32.one] tt
                     BSDFMode.Diffuse half [F32.one] off_axis) H)).
Defined.

Lemma spot_light_members_agree_witness :
  F64.ltb (SpotLight.m_cos_outer_half_angle spot)
    (Vec3.dot up_y (SpotLight.m_axis spot)) = true
  /\ F64.ltb (SpotLight.m_cos_outer_half_angle spot)
       (Vec3.dot down_z (SpotLight.m_axis spot)) = false
  /\ @SpotLight.evaluate_pdf cone spot white up_y
     = snd (@SpotLight.sample cone spot white uv0)
  /\ @SpotLight.evaluate cone spot white down_z [F32.one] = [F32.zero].
Proof.
  assert (H1 : F64.ltb (SpotLight.m_cos_outer_half_angle spot)
                 (Vec3.dot up_y (SpotLight.m_axis spot)) = true)
    by (vm_compute; reflexivity).
  assert (H2 : F64.ltb (SpotLight.m_cos_outer_half_angle spot)
                 (Vec3.dot down_z (SpotLight.m_axis spot)) = false)
    by (vm_compute; reflexivity).
  split; [exact H1 | split; [exact H2 | split]].
  - exact (proj1 (proj2 (proj2
             (@SpotLightFacts.spot_light_members_agree cone spot white up_y
                [F32.one] uv0))) H1).
  - exact (proj1 (proj2 (proj2 (proj2
             (@SpotLightFacts.spot_light_members_agree cone spot white down_z
                [F32.one] uv0))) H2)).
Defined.

End MoreExamples.
